(** * reload_from_file: the hot-reload consistency harness

    A shallow embedding of [onpremise/reload_from_file/reload_from_file.go].
    The three kinds of goroutine of the example (the main goroutine with its
    reload loop, [performDetectionIterations], and one [executeTest] per
    evidence record and iteration) are embedded as one interleaving
    semantics: a [label] names the goroutine that runs its next statement
    together with the answer of the environment (file system, engine) to
    that statement, and [step] executes it on the shared [state].

    Beside it, in modules of their own: the performance example ([Perf]),
    [processEvidence] of the offline processing example ([Offline]),
    [ParseOptions] of the shared example code ([Flags]), and [matchMetrics]
    with [verifyOutputFormat] of the match metrics example ([Metrics]). *)

From Stdlib Require Import ZArith Lia String Ascii DecimalString.
From stdpp Require Import base option list strings gmap.

Local Open Scope string_scope.
Local Open Scope list_scope.
Local Open Scope Z_scope.

(** ** Machine integers *)

Definition uint32 (z : Z) : Z := z mod 2 ^ 32.
Definition uint64 (z : Z) : Z := z mod 2 ^ 64.

(** Go's [int] on a 64-bit platform: two's complement wrap-around. *)
Definition int64 (z : Z) : Z := (z + 2 ^ 63) mod 2 ^ 64 - 2 ^ 63.

(** [%d] of the [fmt] verbs. *)
Definition fmt_d (z : Z) : string := NilZero.string_of_int (Z.to_int z).

Definition nl : string := String (ascii_of_nat 10) EmptyString.
Definition dquote : string := String (ascii_of_nat 34) EmptyString.

(** ** [hash/fnv]: the 32-bit FNV-1 hash behind [generateHash] *)

Definition offset32 : Z := 2166136261.
Definition prime32 : Z := 16777619.

Definition byte_of (c : ascii) : Z := Z.of_N (N_of_ascii c).

(** [h.Write]: for every byte, multiply by the prime, then xor the byte. *)
Fixpoint fnv_write (h : Z) (data : string) : Z :=
  match data with
  | EmptyString => h
  | String c rest => fnv_write (Z.lxor (uint32 (h * prime32)) (byte_of c)) rest
  end.

(** generateHash generate 32bit hash code for an input string *)
Definition generateHash (str : string) : Z := fnv_write offset32 str.

(** ** The report *)

(** Number of iterations to perform over the Evidence Records. *)
Definition fIterationCount : nat := 4.

(** [freport]; the mutex [mu] is the atomicity of the step that runs
    [updateHashCode]. *)
Record freport := Freport {
  evidenceCount : Z;
  hashCodes : list Z;
  evidenceProcessed : Z
}.

(** [var rep freport]: the zero value. *)
Definition zero_report : freport :=
  {| evidenceCount := 0;
     hashCodes := replicate fIterationCount 0;
     evidenceProcessed := 0 |}.

(** [rep.hashCodes[i] ^= code]; [None] is the run-time panic of an index
    out of range. *)
Definition updateHashCode (rep : freport) (code : Z) (i : nat) : option freport :=
  match hashCodes rep !! i with
  | Some h =>
      Some {| evidenceCount := evidenceCount rep;
              hashCodes := <[i := Z.lxor h code]> (hashCodes rep);
              evidenceProcessed := evidenceProcessed rep |}
  | None => None
  end.

(** [atomic.AddUint64(&rep.evidenceProcessed, 1)] *)
Definition addProcessed (rep : freport) : freport :=
  {| evidenceCount := evidenceCount rep;
     hashCodes := hashCodes rep;
     evidenceProcessed := uint64 (evidenceProcessed rep + 1) |}.

(** ** The external collaborators *)

(** One decoded YAML document of the evidence file, [map[string]string].
    [common.ConvertToEvidence] turns it into the engine's evidence; the
    engine's answer to it is supplied by the environment (see [label]), so
    a task carries the document it was started with. *)
Abbreviation Doc := (gmap string string).

Inductive result (A : Type) : Type :=
| Ok (a : A)
| Err (err : string).
Arguments Ok {A} a.
Arguments Err {A} err.

(** The results handle returned by [engine.Process]. *)
Record Results := MkResults {
  AvailableProperties : list string;
  ValuesString : string -> string -> result string
}.

(** ** Goroutines *)

(** Program points of [executeTest]. *)
Inductive task_pc :=
| TProcess                                    (* line 54 *)
| TLoop (results : Results) (rest : list string)
    (* lines 61-73, [defer results.Free()] registered; [rest] are the
       properties the range loop has still to visit, and with [rest = []]
       control is at the atomic add of line 73 *)
| TDeferDone (results : Results)             (* returning: deferred [wg.Done()] *)
| TDeferFree (results : Results)             (* returning: deferred [results.Free()] *)
| TReturned (results : Results).

Record task := Task {
  t_evidence : Doc;
  t_iteration : nat;
  t_pc : task_pc
}.

(** Program points of [performDetectionIterations]. *)
Inductive disp_pc :=
| DOpen (i : nat)                    (* line 89, loop test for [i] *)
| DDecode (i : nat) (docs : list Doc) (* line 104, [docs] not yet decoded *)
| DClose (n : nat).                  (* after [wg.Done()]: [n] deferred closes left *)

(** Program points of [runReloadFromFileSub]. *)
Inductive main_pc :=
| MLoop                              (* line 148 *)
| MSleep                             (* line 157 *)
| MWait                              (* line 161 *)
| MReport                            (* line 164 *)
| MDone (ret : string).

Inductive status :=
| Running
| Fatal (msg : string)               (* [log.Fatal...]: message, then [os.Exit(1)] *)
| Panic (msg : string).

(** What the goroutines do to the shared objects, in the order it happens. *)
Inductive event :=
| EvFold (k : nat) (i : nat) (code : Z)  (* task [k]: [rep.updateHashCode(code, i)] *)
| EvAdd (k : nat)                        (* task [k]: the atomic add *)
| EvDone (k : nat)                       (* task [k]: [wg.Done()] *)
| EvFree (k : nat)                       (* task [k]: [results.Free()] *)
| EvChtimes (ok : bool).                 (* [os.Chtimes] and its outcome *)

Global Instance event_eq_dec : EqDecision event.
Proof. solve_decision. Defined.

Record state := State {
  rep : freport;
  wg : nat;
  disp : disp_pc;
  tasks : list task;
  main : main_pc;
  reloads : Z;
  reloadFails : Z;
  logs : list string;
  trace : list event;
  st : status
}.

(** Who runs next, and what the environment answers. *)
Inductive label :=
| LDisp (io : option string)
    (* [performDetectionIterations]; [io] is the error of the file
       operation of the statement, if it has one and it fails *)
| LProcess (k : nat) (r : result Results)
    (* task [k] calls [engine.Process], which returns [r] *)
| LTask (k : nat)
    (* task [k], any later statement *)
| LMain (chtimes_ok : bool).
    (* the main goroutine; [chtimes_ok]: does [os.Chtimes] succeed *)

(** *** Field updates *)

Definition with_rep (r : freport) (s : state) : state :=
  State r (wg s) (disp s) (tasks s) (main s) (reloads s) (reloadFails s)
        (logs s) (trace s) (st s).
Definition with_wg (n : nat) (s : state) : state :=
  State (rep s) n (disp s) (tasks s) (main s) (reloads s) (reloadFails s)
        (logs s) (trace s) (st s).
Definition with_disp (d : disp_pc) (s : state) : state :=
  State (rep s) (wg s) d (tasks s) (main s) (reloads s) (reloadFails s)
        (logs s) (trace s) (st s).
Definition with_tasks (ts : list task) (s : state) : state :=
  State (rep s) (wg s) (disp s) ts (main s) (reloads s) (reloadFails s)
        (logs s) (trace s) (st s).
Definition with_main (m : main_pc) (s : state) : state :=
  State (rep s) (wg s) (disp s) (tasks s) m (reloads s) (reloadFails s)
        (logs s) (trace s) (st s).
Definition with_counts (ok fails : Z) (s : state) : state :=
  State (rep s) (wg s) (disp s) (tasks s) (main s) ok fails
        (logs s) (trace s) (st s).
Definition with_st (x : status) (s : state) : state :=
  State (rep s) (wg s) (disp s) (tasks s) (main s) (reloads s) (reloadFails s)
        (logs s) (trace s) x.
Definition log_lines (ls : list string) (s : state) : state :=
  State (rep s) (wg s) (disp s) (tasks s) (main s) (reloads s) (reloadFails s)
        (logs s ++ ls) (trace s) (st s).
Definition emit (e : event) (s : state) : state :=
  State (rep s) (wg s) (disp s) (tasks s) (main s) (reloads s) (reloadFails s)
        (logs s) (trace s ++ [e]) (st s).

Definition set_pc (k : nat) (t : task) (pc : task_pc) (s : state) : state :=
  with_tasks (<[k := Task (t_evidence t) (t_iteration t) pc]> (tasks s)) s.

(** [wg.Done()] *)
Definition negative_counter : string := "sync: negative WaitGroup counter".
Definition index_out_of_range : string := "runtime error: index out of range".

(** ** [executeTest] *)

Definition step_process (k : nat) (t : task) (r : result Results) (s : state)
  : option state :=
  match t_pc t with
  | TProcess =>
      match r with
      | Err err => Some (with_st (Fatal (err +:+ nl)) s)
      | Ok results => Some (set_pc k t (TLoop results (AvailableProperties results)) s)
      end
  | _ => None
  end.

Definition step_task (k : nat) (t : task) (s : state) : option state :=
  match t_pc t with
  | TProcess => None
  | TLoop results (property :: rest) =>
      match ValuesString results property "," with
      | Err err => Some (with_st (Fatal (err +:+ nl)) s)
      | Ok value =>
          let code := generateHash value in
          match updateHashCode (rep s) code (t_iteration t) with
          | None => Some (with_st (Panic index_out_of_range) s)
          | Some rep' =>
              Some (emit (EvFold k (t_iteration t) code)
                      (set_pc k t (TLoop results rest) (with_rep rep' s)))
          end
      end
  | TLoop results [] =>
      Some (emit (EvAdd k)
              (set_pc k t (TDeferDone results) (with_rep (addProcessed (rep s)) s)))
  | TDeferDone results =>
      match wg s with
      | O => Some (with_st (Panic negative_counter) s)
      | S n => Some (emit (EvDone k) (set_pc k t (TDeferFree results) (with_wg n s)))
      end
  | TDeferFree results =>
      Some (emit (EvFree k) (set_pc k t (TReturned results) s))
  | TReturned _ => None
  end.

(** ** The report of [runReloadFromFileSub], lines 164-179 *)

Definition reloaded_line (reloads : Z) : string :=
  "Reloaded '" +:+ fmt_d reloads +:+ "' times." +:+ nl.
Definition failed_line (reloadFails : Z) : string :=
  "Failed to reload '" +:+ fmt_d reloadFails +:+ "' times." +:+ nl.
Definition hashcode_line (h : Z) (i : nat) : string :=
  "Hashcode '" +:+ fmt_d h +:+ "' for iteration '" +:+ fmt_d (Z.of_nat i)
    +:+ "'." +:+ nl.

(** [fmt.Sprintf] of the format of line 171 on three operands, in the order
    they are passed. *)
Definition mismatch_format (a b c : Z) : string :=
  "Hash codes do not match. Initial hash code is '" +:+ fmt_d a
    +:+ "', but iteration '" +:+ fmt_d b +:+ "' has hash code '" +:+ fmt_d c
    +:+ "'. This indicates not all Evidence Records have been processed "
    +:+ "correctly for each iteration.".

(** The loop of line 167 over the indices [idx]: the lines logged and how
    the loop ends. *)
Fixpoint compare_hashCodes (hs : list Z) (idx : list nat) (initHashCode : Z)
  : list string * status :=
  match idx with
  | [] => ([], Running)
  | i :: idx' =>
      match hs !! i with
      | None => ([], Panic index_out_of_range)
      | Some h =>
          if decide (i = 0%nat) then
            let '(ls, x) := compare_hashCodes hs idx' h in
            (hashcode_line h i :: ls, x)
          else if decide (initHashCode = h) then
            let '(ls, x) := compare_hashCodes hs idx' initHashCode in
            (hashcode_line h i :: ls, x)
          else
            ([], Fatal (mismatch_format initHashCode h (Z.of_nat i)))
      end
  end.

Arguments compare_hashCodes : simpl never.

Definition construct_report (reloads reloadFails : Z) (hs : list Z)
  : list string * status :=
  let r := compare_hashCodes hs (seq 0 fIterationCount) 0 in
  (reloaded_line reloads :: failed_line reloadFails :: fst r, snd r).

Definition complete : string := "Program execution complete.".

(** Modelled from the spec: [dd_example.CountEvidenceFromFiles], which is
    called at line 140 and is not among the sources. The spec gives
    [expectedTotal] as "total records × N, computed once before dispatch":
    the helper returns the number of records of the evidence file. *)
Definition CountEvidenceFromFiles (file : list Doc) : Z :=
  uint64 (Z.of_nat (length file)).

Section Run.

(** The path of the evidence file, and the documents a [yaml.Decoder]
    yields from it, in order; [count] is what the call of line 140
    returned. *)
Variable evidenceFilePath : string.
Variable file : list Doc.
Variable count : Z.

Definition open_failed : string :=
  "ERROR: Failed to open file " +:+ dquote +:+ evidenceFilePath +:+ dquote
    +:+ "." +:+ nl.
Definition close_failed : string :=
  "ERROR: Failed to close file " +:+ dquote +:+ evidenceFilePath +:+ dquote
    +:+ "." +:+ nl.
Definition decode_failed (err : string) : string :=
  "ERROR: Error during decoding file " +:+ dquote +:+ evidenceFilePath
    +:+ dquote +:+ ". " +:+ err +:+ nl.

(** [wg.Add(1)] and [go executeTest(engine, wg, evidence, rep, uint32(i))] *)
Definition spawn (doc : Doc) (i : nat) (s : state) : state :=
  with_tasks (tasks s ++ [Task doc i TProcess]) (with_wg (S (wg s)) s).

(** ** [performDetectionIterations] *)
Definition step_disp (io : option string) (s : state) : option state :=
  match disp s with
  | DOpen i =>
      if decide (i < fIterationCount)%nat then
        match io with
        | Some _ => Some (with_st (Fatal open_failed) s)
        | None => Some (with_disp (DDecode i file) s)
        end
      else
        match wg s with
        | O => Some (with_st (Panic negative_counter) s)
        | S n => Some (with_disp (DClose fIterationCount) (with_wg n s))
        end
  | DDecode i docs =>
      match io with
      | Some err => Some (with_st (Fatal (decode_failed err)) s)
      | None =>
          match docs with
          | [] => Some (with_disp (DOpen (S i)) s)
          | doc :: docs' => Some (spawn doc i (with_disp (DDecode i docs') s))
          end
      end
  | DClose O => None
  | DClose (S n) =>
      match io with
      | Some _ => Some (with_st (Fatal close_failed) s)
      | None => Some (with_disp (DClose n) s)
      end
  end.

(** ** [runReloadFromFileSub] *)

(** Lines 149-155: one reload attempt. *)
Definition attempt_reload (chtimes_ok : bool) (s : state) : state :=
  emit (EvChtimes chtimes_ok)
    (if chtimes_ok
     then with_counts (int64 (reloads s + 1)) (reloadFails s) s
     else with_counts (reloads s) (int64 (reloadFails s + 1)) s).

Definition step_main (chtimes_ok : bool) (s : state) : option state :=
  match main s with
  | MLoop =>
      if decide (evidenceProcessed (rep s) < evidenceCount (rep s)) then
        Some (with_main MSleep (attempt_reload chtimes_ok s))
      else
        Some (with_main MWait s)
  | MSleep => Some (with_main MLoop s)
  | MWait =>
      match wg s with
      | O => Some (with_main MReport s)
      | S _ => None
      end
  | MReport =>
      let r := construct_report (reloads s) (reloadFails s) (hashCodes (rep s)) in
      match snd r with
      | Running => Some (with_main (MDone complete) (log_lines (fst r) s))
      | x => Some (with_st x (log_lines (fst r) s))
      end
  | MDone _ => None
  end.

(** ** The interleaving *)

(** After a fatal log or a panic the process is gone. *)
Definition step (l : label) (s : state) : option state :=
  match st s with
  | Running =>
      match l with
      | LDisp io => step_disp io s
      | LProcess k r =>
          match tasks s !! k with
          | Some t => step_process k t r s
          | None => None
          end
      | LTask k =>
          match tasks s !! k with
          | Some t => step_task k t s
          | None => None
          end
      | LMain chtimes_ok => step_main chtimes_ok s
      end
  | _ => None
  end.

Fixpoint exec (ls : list label) (s : state) : option state :=
  match ls with
  | [] => Some s
  | l :: ls' =>
      match step l s with
      | Some s' => exec ls' s'
      | None => None
      end
  end.

(** Lines 133-145: the state in which the loop of line 148 is entered, with
    [performDetectionIterations] started. *)
Definition start : state :=
  {| rep := {| evidenceCount := uint64 (count * Z.of_nat fIterationCount);
               hashCodes := replicate fIterationCount 0;
               evidenceProcessed := 0 |};
     wg := 1;
     disp := DOpen 0;
     tasks := [];
     main := MLoop;
     reloads := 0;
     reloadFails := 0;
     logs := [];
     trace := [];
     st := Running |}.

Definition Reachable (s : state) : Prop :=
  exists ls, exec ls start = Some s.

End Run.

(** ** Reading a state *)

(** Several folds into one slot, one after the other. *)
Fixpoint foldHashCodes (rep : freport) (i : nat) (codes : list Z) : option freport :=
  match codes with
  | [] => Some rep
  | code :: codes' =>
      match updateHashCode rep code i with
      | Some rep' => foldHashCodes rep' i codes'
      | None => None
      end
  end.

(** How often an event occurs in a trace. *)
Definition count_ev (e : event) (tr : list event) : nat :=
  length (filter (eq e) tr).

Definition fold_of (k : nat) (e : event) : option (nat * Z) :=
  match e with
  | EvFold k' i code => if decide (k' = k) then Some (i, code) else None
  | _ => None
  end.

(** The folds of task [k], oldest first: slot and code. *)
Definition folds_of (k : nat) (tr : list event) : list (nat * Z) :=
  omap (fold_of k) tr.

Definition code_of (i : nat) (e : event) : option Z :=
  match e with
  | EvFold _ i' code => if decide (i' = i) then Some code else None
  | _ => None
  end.

(** The codes folded into slot [i], oldest first. *)
Definition slot_codes (i : nat) (tr : list event) : list Z :=
  omap (code_of i) tr.

Definition xor_all (codes : list Z) : Z := foldr Z.lxor 0 codes.

Definition task_of (e : event) : option nat :=
  match e with
  | EvFold k _ _ | EvAdd k | EvDone k | EvFree k => Some k
  | EvChtimes _ => None
  end.

(** Does the task still owe its [wg.Done()]; has it done its atomic add;
    has it released its results. *)
Definition pending (t : task) : nat :=
  match t_pc t with
  | TProcess | TLoop _ _ | TDeferDone _ => 1
  | TDeferFree _ | TReturned _ => 0
  end.

Definition counted (t : task) : nat :=
  match t_pc t with
  | TProcess | TLoop _ _ => 0
  | TDeferDone _ | TDeferFree _ | TReturned _ => 1
  end.

Definition freed (t : task) : nat :=
  match t_pc t with
  | TReturned _ => 1
  | _ => 0
  end.

Definition disp_pending (d : disp_pc) : nat :=
  match d with
  | DOpen _ | DDecode _ _ => 1
  | DClose _ => 0
  end.

(** [wg.Wait()] has returned. *)
Definition joined (m : main_pc) : bool :=
  match m with
  | MReport | MDone _ => true
  | _ => false
  end.

Definition key (t : task) : nat * Doc := (t_iteration t, t_evidence t).

Arguments pending !t /.
Arguments counted !t /.
Arguments freed !t /.
Arguments key !t /.

(** The records of the first [n] passes over the file, in the order the
    tasks for them are started. *)
Definition passes (file : list Doc) (n : nat) : list (nat * Doc) :=
  flat_map (fun i => map (pair i) file) (seq 0 n).

(** The tasks started when [performDetectionIterations] is at [d]. *)
Definition dispatched (file : list Doc) (d : disp_pc) (ks : list (nat * Doc)) : Prop :=
  match d with
  | DOpen i => (i <= fIterationCount)%nat /\ ks = passes file i
  | DDecode i docs =>
      (i < fIterationCount)%nat /\
      exists done, file = done ++ docs /\ ks = passes file i ++ map (pair i) done
  | DClose n => (n <= fIterationCount)%nat /\ ks = passes file fIterationCount
  end.

(** Fold [f] of task iteration [it] is the one line 69 makes for
    [property]. *)
Definition folded (it : nat) (results : Results) (property : string)
    (f : nat * Z) : Prop :=
  exists value,
    ValuesString results property "," = Ok value /\ f = (it, generateHash value).

(** The folds [fs] a task has made are those of its program point: one
    for every property the range loop has visited, in order. *)
Definition folds_ok (t : task) (fs : list (nat * Z)) : Prop :=
  match t_pc t with
  | TProcess => fs = []
  | TLoop results rest =>
      exists done,
        AvailableProperties results = done ++ rest /\
        Forall2 (folded (t_iteration t) results) done fs
  | TDeferDone results | TDeferFree results | TReturned results =>
      Forall2 (folded (t_iteration t) results) (AvailableProperties results) fs
  end.

(** The trace [tr] agrees with the program points of the tasks [ts]. *)
Definition traced (ts : list task) (tr : list event) : Prop :=
  Forall (fun e => forall k, task_of e = Some k -> (k < length ts)%nat) tr /\
  forall k t, ts !! k = Some t ->
    count_ev (EvAdd k) tr = counted t /\
    count_ev (EvFree k) tr = freed t /\
    folds_ok t (folds_of k tr).

(** The slots are the xor of the codes folded into them. *)
Definition hashed (hs : list Z) (tr : list event) : Prop :=
  hs = (fun i => xor_all (slot_codes i tr)) <$> seq 0 fIterationCount.

(** ** A run of the example *)

Definition is_mobile (v : string) : Results :=
  {| AvailableProperties := ["IsMobile"];
     ValuesString := fun _ _ => Ok v |}.

Definition ua (v : string) : Doc := {[ "header.user-agent" := v ]}.

(** One task from [engine.Process] to its return, for a handle with one
    property. *)
Definition run_task (k : nat) (r : Results) : list label :=
  [LProcess k (Ok r); LTask k; LTask k; LTask k; LTask k].

(** One record; the tasks of the four passes answer [r0] to [r3]. *)
Definition sched1 (ok : bool) (r0 r1 r2 r3 : Results) : list label :=
  [LMain ok; LDisp None; LDisp None; LDisp None; LMain true]
  ++ run_task 0 r0
  ++ [LDisp None; LDisp None; LDisp None; LMain false ]
  ++ [LDisp None; LDisp None; LDisp None]
  ++ run_task 2 r2 ++ run_task 1 r1
  ++ [LDisp None; LDisp None; LDisp None; LDisp None]
  ++ run_task 3 r3
  ++ [LMain true; LMain true; LMain true; LMain true].

(** A handle without available properties. *)
Definition no_properties : Results :=
  {| AvailableProperties := [];
     ValuesString := fun _ _ => Err "no such property" |}.

(** A handle with two available properties. *)
Definition two_properties : Results :=
  {| AvailableProperties := ["IsMobile"; "PlatformName"];
     ValuesString := fun property _ =>
       if String.eqb property "IsMobile" then Ok "True" else Ok "Android" |}.

(** A handle whose value cannot be formatted. *)
Definition broken_value : Results :=
  {| AvailableProperties := ["IsMobile"];
     ValuesString := fun _ _ => Err "value unavailable" |}.

(** One record: the file is opened, its record decoded, and the task of the
    first pass runs for [n] statements after [engine.Process] returned
    [r]. *)
Definition sched_first (r : Results) (n : nat) : list label :=
  [LDisp None; LDisp None; LProcess 0 (Ok r)] ++ replicate n (LTask 0).

(** An evidence file without records: four passes that meet the end of the
    file at once, then the report. *)
Definition sched_empty : list label :=
  [LMain true] ++ replicate 9 (LDisp None) ++ [LMain true; LMain true].

(** The state a schedule leads to. *)
Definition state_after (evidenceFilePath : string) (file : list Doc)
    (count : Z) (ls : list label) : state :=
  default (start count) (exec evidenceFilePath file ls (start count)).

(** The runs used below: one record, evidence file [evidence.yml]. *)
Definition evidence_yml : string := "evidence.yml".
Definition evidence1 : list Doc := [ua "Mozilla/5.0"].

Definition all_true (ok : bool) : list label :=
  sched1 ok (is_mobile "True") (is_mobile "True") (is_mobile "True")
    (is_mobile "True").

(** The engine answers differently in the pass with index 2. *)
Definition third_differs : list label :=
  sched1 true (is_mobile "True") (is_mobile "True") (is_mobile "False")
    (is_mobile "True").

Definition final1 : state := state_after evidence_yml evidence1 1 (all_true true).
Definition final_differs : state := state_after evidence_yml evidence1 1 third_differs.
Definition final_no_properties : state :=
  state_after evidence_yml evidence1 1 (sched_first no_properties 3).
Definition final_two_properties : state :=
  state_after evidence_yml evidence1 1 (sched_first two_properties 5).
Definition final_broken : state :=
  state_after evidence_yml evidence1 1 (sched_first broken_value 1).
(** The run of [all_true] up to the construction of the report. *)
Definition before_report : state :=
  state_after evidence_yml evidence1 1 (removelast (all_true true)).
Definition final_empty : state :=
  state_after evidence_yml [] (CountEvidenceFromFiles []) sched_empty.

(** The per-record signature of the spec: the values of the available
    properties, concatenated in order. *)
Fixpoint spec_signature (results : Results) (properties : list string)
  : option string :=
  match properties with
  | [] => Some EmptyString
  | property :: rest =>
      match ValuesString results property ",", spec_signature results rest with
      | Ok value, Some sig => Some (value +:+ sig)
      | _, _ => None
      end
  end.

(** Two labels that differ at most in the outcome of [os.Chtimes]. *)
Definition same_label (a b : label) : Prop :=
  match a, b with
  | LMain _, LMain _ => True
  | _, _ => a = b
  end.

(** Two states that differ at most in the reload counters and in what is
    derived from them (the two counter lines of the log, the [EvChtimes]
    events). *)
Definition agree (s1 s2 : state) : Prop :=
  rep s1 = rep s2 /\ wg s1 = wg s2 /\ disp s1 = disp s2 /\
  tasks s1 = tasks s2 /\ main s1 = main s2 /\ st s1 = st s2.

(** ** Invariants *)

(** The wait group counts the goroutines that still owe their [wg.Done()],
    the progress counter the tasks that have made their atomic add, and the
    tasks are those of the records decoded so far. *)
Definition counting (file : list Doc) (count : Z) (s : state) : Prop :=
  wg s = (disp_pending (disp s) + sum_list_with pending (tasks s))%nat /\
  evidenceProcessed (rep s) = uint64 (Z.of_nat (sum_list_with counted (tasks s))) /\
  dispatched file (disp s) (key <$> tasks s) /\
  (joined (main s) = true -> wg s = 0%nat) /\
  evidenceCount (rep s) = uint64 (count * Z.of_nat fIterationCount).

Definition tracing (s : state) : Prop := traced (tasks s) (trace s).

Definition hashing (s : state) : Prop := hashed (hashCodes (rep s)) (trace s).

(** Every index into [hashCodes] is inside the array. *)
Definition ranged (s : state) : Prop :=
  length (hashCodes (rep s)) = fIterationCount /\
  Forall (fun t => (t_iteration t < fIterationCount)%nat) (tasks s) /\
  (forall i docs, disp s = DDecode i docs -> (i < fIterationCount)%nat).

(** The report of a run in which nothing was folded and no reload was
    attempted. *)
Definition report0 : list string :=
  [reloaded_line 0; failed_line 0; hashcode_line 0 0; hashcode_line 0 1;
   hashcode_line 0 2; hashcode_line 0 3].

(** A run over an evidence file without records. *)
Definition idle (s : state) : Prop :=
  rep s = zero_report /\ tasks s = [] /\ reloads s = 0 /\ reloadFails s = 0 /\
  trace s = [] /\ main s <> MSleep /\
  (forall i docs, disp s = DDecode i docs -> docs = []) /\
  (forall ret, main s = MDone ret -> ret = complete /\ logs s = report0) /\
  ((forall ret, main s <> MDone ret) -> logs s = []).

(** ** What a task folds *)

(** The code line 69 folds for [property]. *)
Definition value_code (results : Results) (property : string) : Z :=
  match ValuesString results property "," with
  | Ok value => generateHash value
  | Err _ => 0
  end.

(** The xor of the codes of all available properties of a handle. *)
Definition results_code (results : Results) : Z :=
  xor_all (value_code results <$> AvailableProperties results).

(** The xor of what a task has folded when it is at its program point. *)
Definition folded_code (t : task) : Z :=
  match t_pc t with
  | TProcess => 0
  | TLoop results rest =>
      xor_all (value_code results
                 <$> take (length (AvailableProperties results) - length rest)
                       (AvailableProperties results))
  | TDeferDone results | TDeferFree results | TReturned results =>
      results_code results
  end.

(** The results handle of a task that has one. *)
Definition results_of (t : task) : option Results :=
  match t_pc t with
  | TProcess => None
  | TLoop results _ | TDeferDone results | TDeferFree results
  | TReturned results => Some results
  end.

Definition pass_code (i : nat) (t : task) : option Z :=
  if decide (t_iteration t = i) then Some (folded_code t) else None.

(** The codes of the tasks of pass [i], in the order the tasks were
    started. *)
Definition pass_codes (i : nat) (ts : list task) : list Z :=
  omap (pass_code i) ts.

(** Every slot is the xor of the codes of the tasks of its pass, and the
    range loop of a task is at a suffix of its properties. *)
Definition coded (s : state) : Prop :=
  Forall (fun t => match t_pc t with
                   | TLoop results rest =>
                       exists done, AvailableProperties results = done ++ rest
                   | _ => True
                   end) (tasks s) /\
  hashCodes (rep s)
  = (fun i => xor_all (pass_codes i (tasks s))) <$> seq 0 fIterationCount.

(** The reload counters count the outcomes of [os.Chtimes]. *)
Definition attempts (s : state) : Prop :=
  reloads s = int64 (Z.of_nat (count_ev (EvChtimes true) (trace s))) /\
  reloadFails s = int64 (Z.of_nat (count_ev (EvChtimes false) (trace s))).

(** Every slot is a [uint32]. *)
Definition slots_uint32 (s : state) : Prop :=
  Forall (fun h => 0 <= h < 2 ^ 32) (hashCodes (rep s)).

(** * The performance example

    [matchEvidenceRecord], [performDetections] and [run] of the performance
    example (package [main] that reports to [performance_report.log]): the
    goroutine of [performDetections] starts one [matchEvidenceRecord] per
    evidence and iteration and waits for them; [run] then compares the two
    counters. The interleaving is embedded as for the reload example. *)
Module Perf.

(** Report struct for each performance run *)
Record report := Report {
  evidenceCount : Z;
  evidenceIsMobile : Z;
  evidenceProcessed : Z;
  processingTime : Z
}.

(** Program points of [matchEvidenceRecord]. *)
Inductive task_pc :=
| QStart                       (* the atomic add of [evidenceProcessed] *)
| QMatch                       (* [results.MatchEvidence(evidence)] *)
| QValue                       (* [results.ValuesString("IsMobile", ",")] and the update *)
| QDeferDone (res : string)    (* returning: deferred [wg.Done()] *)
| QDeferFree (res : string)    (* returning: deferred [results.Free()] *)
| QReturned (res : string).

Record task := Task {
  t_evidence : Doc;
  t_pc : task_pc
}.

(** Program points of [performDetections] and, after it, of [run]. *)
Inductive main_pc :=
| RLoop (i : Z)                       (* the test [i < int(options.Iterations)] *)
| RInner (i : Z) (rest : list Doc)    (* the range loop over [evidenceSlice] *)
| RWait                               (* [wg.Wait()] *)
| RCheck                              (* [run]: the comparison of the counters *)
| RDone.                              (* [run]: [printReport] *)

Record state := State {
  rep : report;
  wg : nat;
  main : main_pc;
  tasks : list task;
  st : status
}.

Inductive label :=
| LMain (elapsed : Z)
    (* the goroutine of [performDetections]; [elapsed] is what
       [time.Since(start).Milliseconds()] returns *)
| LStart (k : nat)
| LMatch (k : nat) (err : option string)
| LValue (k : nat) (r : result string)
| LDefer (k : nat).

Definition with_task (k : nat) (t : task) (pc : task_pc) (s : state) : state :=
  State (rep s) (wg s) (main s) (<[k := Task (t_evidence t) pc]> (tasks s)) (st s).
Definition with_rep (r : report) (s : state) : state :=
  State r (wg s) (main s) (tasks s) (st s).
Definition with_wg (n : nat) (s : state) : state :=
  State (rep s) n (main s) (tasks s) (st s).
Definition with_main (m : main_pc) (s : state) : state :=
  State (rep s) (wg s) m (tasks s) (st s).
Definition with_st (x : status) (s : state) : state :=
  State (rep s) (wg s) (main s) (tasks s) x.

(** [atomic.AddUint64(&rep.evidenceProcessed, 1)] *)
Definition addProcessed (r : report) : report :=
  Report (evidenceCount r) (evidenceIsMobile r)
    (uint64 (evidenceProcessed r + 1)) (processingTime r).

(** [atomic.AddUint64(&rep.evidenceIsMobile, 1)] *)
Definition addIsMobile (r : report) : report :=
  Report (evidenceCount r) (uint64 (evidenceIsMobile r + 1))
    (evidenceProcessed r) (processingTime r).

(** [rep.evidenceCount += 1] *)
Definition addCount (r : report) : report :=
  Report (uint64 (evidenceCount r + 1)) (evidenceIsMobile r)
    (evidenceProcessed r) (processingTime r).

Definition setTime (ms : Z) (r : report) : report :=
  Report (evidenceCount r) (evidenceIsMobile r) (evidenceProcessed r) ms.

Definition detection_failed : string := "ERROR: Failed to perform detection.".
Definition not_all_processed : string :=
  "ERROR: Not all Evidence Records have been processed." +:+ nl.

(** [strings.Compare("True", res) == 0] *)
Definition is_True (res : string) : bool := String.eqb "True" res.
Arguments is_True : simpl never.

(** ** [matchEvidenceRecord] *)
Definition step_task (l : label) (k : nat) (t : task) (s : state) : option state :=
  match l, t_pc t with
  | LStart _, QStart =>
      Some (with_task k t QMatch (with_rep (addProcessed (rep s)) s))
  | LMatch _ err, QMatch =>
      match err with
      | Some _ => Some (with_st (Fatal detection_failed) s)
      | None => Some (with_task k t QValue s)
      end
  | LValue _ r, QValue =>
      match r with
      | Err err => Some (with_st (Fatal (err +:+ nl)) s)
      | Ok res =>
          if is_True res
          then Some (with_task k t (QDeferDone res) (with_rep (addIsMobile (rep s)) s))
          else Some (with_task k t (QDeferDone res) s)
      end
  | LDefer _, QDeferDone res =>
      match wg s with
      | O => Some (with_st (Panic negative_counter) s)
      | S n => Some (with_task k t (QDeferFree res) (with_wg n s))
      end
  | LDefer _, QDeferFree res => Some (with_task k t (QReturned res) s)
  | _, _ => None
  end.

Section Run.

(** What [readYAMLFile] returned, and [options.Iterations]. *)
Variable evidenceSlice : list Doc.
Variable Iterations : Z.

(** ** [performDetections], then [run] *)
Definition step_main (elapsed : Z) (s : state) : option state :=
  match main s with
  | RLoop i =>
      if decide (i < int64 Iterations)
      then Some (with_main (RInner i evidenceSlice) s)
      else Some (with_main RWait s)
  | RInner i [] => Some (with_main (RLoop (int64 (i + 1))) s)
  | RInner i (evidence :: rest) =>
      Some (State (addCount (rep s)) (S (wg s)) (RInner i rest)
              (tasks s ++ [Task evidence QStart]) (st s))
  | RWait =>
      match wg s with
      | O => Some (with_main RCheck (with_rep (setTime elapsed (rep s)) s))
      | S _ => None
      end
  | RCheck =>
      if decide (evidenceCount (rep s) = evidenceProcessed (rep s))
      then Some (with_main RDone s)
      else Some (with_st (Fatal not_all_processed) s)
  | RDone => None
  end.

Definition label_task (l : label) : option nat :=
  match l with
  | LMain _ => None
  | LStart k | LMatch k _ | LValue k _ | LDefer k => Some k
  end.

Definition step (l : label) (s : state) : option state :=
  match st s with
  | Running =>
      match l with
      | LMain elapsed => step_main elapsed s
      | LStart k | LMatch k _ | LValue k _ | LDefer k =>
          match tasks s !! k with
          | Some t => step_task l k t s
          | None => None
          end
      end
  | _ => None
  end.

Fixpoint exec (ls : list label) (s : state) : option state :=
  match ls with
  | [] => Some s
  | l :: ls' =>
      match step l s with
      | Some s' => exec ls' s'
      | None => None
      end
  end.

(** [run]: [actReport := report{0, 0, 0, 0}], at the head of the loop of
    [performDetections]. *)
Definition start : state :=
  State (Report 0 0 0 0) 0 (RLoop 0) [] Running.

Definition Reachable (s : state) : Prop := exists ls, exec ls start = Some s.

End Run.

(** ** Reading a state *)

Definition pending (t : task) : nat :=
  match t_pc t with
  | QStart | QMatch | QValue | QDeferDone _ => 1
  | QDeferFree _ | QReturned _ => 0
  end.

Definition started (t : task) : nat :=
  match t_pc t with
  | QStart => 0
  | _ => 1
  end.

(** The task has found its record to be mobile. *)
Definition mobile (t : task) : nat :=
  match t_pc t with
  | QDeferDone res | QDeferFree res | QReturned res =>
      if is_True res then 1 else 0
  | _ => 0
  end.

Arguments pending !t /.
Arguments started !t /.
Arguments mobile !t /.

Definition joined (m : main_pc) : bool :=
  match m with
  | RCheck | RDone => true
  | _ => false
  end.

(** The number of passes [performDetections] makes. *)
Definition rounds (Iterations : Z) : nat := Z.to_nat (int64 Iterations).

(** The tasks started when [performDetections] is at [m]. *)
Definition dispatched (evidenceSlice : list Doc) (Iterations : Z)
    (m : main_pc) (n : nat) : Prop :=
  match m with
  | RLoop i =>
      0 <= i <= Z.max 0 (int64 Iterations) /\
      n = (Z.to_nat i * length evidenceSlice)%nat
  | RInner i rest =>
      0 <= i < int64 Iterations /\
      exists done, evidenceSlice = done ++ rest /\
                   n = (Z.to_nat i * length evidenceSlice + length done)%nat
  | RWait | RCheck | RDone =>
      n = (rounds Iterations * length evidenceSlice)%nat
  end.

Definition counting (evidenceSlice : list Doc) (Iterations : Z) (s : state)
  : Prop :=
  wg s = sum_list_with pending (tasks s) /\
  evidenceCount (rep s) = uint64 (Z.of_nat (length (tasks s))) /\
  evidenceProcessed (rep s) = uint64 (Z.of_nat (sum_list_with started (tasks s))) /\
  evidenceIsMobile (rep s) = uint64 (Z.of_nat (sum_list_with mobile (tasks s))) /\
  dispatched evidenceSlice Iterations (main s) (length (tasks s)) /\
  (joined (main s) = true -> wg s = 0%nat).

(** ** A run *)

Definition run_task (k : nat) (res : string) : list label :=
  [LStart k; LMatch k None; LValue k (Ok res); LDefer k; LDefer k].

(** Two records and two iterations; the first record is mobile. *)
Definition sched : list label :=
  [LMain 0; LMain 0; LMain 0] ++ run_task 0 "True"
  ++ [LMain 0; LMain 0; LMain 0; LMain 0] ++ run_task 1 "False"
  ++ run_task 3 "False" ++ run_task 2 "True"
  ++ [LMain 0; LMain 0; LMain 7; LMain 0].

Definition two_records : list Doc := [ua "Mozilla/5.0 (iPhone)"; ua "Mozilla/5.0 (X11)"].

Definition final : state :=
  default start (exec two_records 2 sched start).

Definition before_check : state :=
  default start (exec two_records 2 (removelast sched) start).

(** [options.Iterations] is 2^63: the whole run. *)
Definition final_huge : state :=
  default start (exec two_records (2 ^ 63) [LMain 0; LMain 3; LMain 0] start).

End Perf.

(** * The offline processing example: [processEvidence] *)
Module Offline.

(** The results handle as [processEvidence] uses it. *)
Record Results := MkResults {
  AvailableProperties : list string;
  HasValuesByIndex : nat -> result bool;
  ValuesString : string -> string -> result string;
  DeviceId : result string
}.

Definition deviceid_key : string := "device.deviceid".

Definition deviceid_failed (err : string) : string :=
  "ERROR: Failed to get unique DeviceID: " +:+ err.

Section ProcessEvidence.

(** [strings.ToLower] *)
Variable ToLower : string -> string.

Definition device_key (property : string) : string :=
  "device." +:+ ToLower property.

(** The loop over [available], at index [i] with [rest] = [available[i:]]:
    [Err] carries the message of the fatal log. *)
Fixpoint collect (results : Results) (i : nat) (rest : list string)
    (res : gmap string string) : result (gmap string string) :=
  match rest with
  | [] => Ok res
  | property :: rest' =>
      match HasValuesByIndex results i with
      | Err err => Err (err +:+ nl)
      | Ok false => collect results (S i) rest' res
      | Ok true =>
          match ValuesString results property "," with
          | Err err => Err (err +:+ nl)
          | Ok value =>
              collect results (S i) rest' (<[device_key property := value]> res)
          end
      end
  end.

(** [processEvidence], given what [engine.Process(evidence)] returned. On
    every [Ok] the deferred [results.Free()] has run; on every [Err] the
    process has ended in [log.Fatal...]. *)
Definition processEvidence (processed : result Results)
  : result (gmap string string) :=
  match processed with
  | Err err => Err (err +:+ nl)
  | Ok results =>
      match collect results 0 (AvailableProperties results) ∅ with
      | Err msg => Err msg
      | Ok res =>
          match DeviceId results with
          | Err err => Err (deviceid_failed err)
          | Ok id => Ok (<[deviceid_key := id]> res)
          end
      end
  end.

(** Property [i] has values, and they format. *)
Definition valued (results : Results) (i : nat) (property value : string) : Prop :=
  AvailableProperties results !! i = Some property /\
  HasValuesByIndex results i = Ok true /\
  ValuesString results property "," = Ok value.

(** Nothing stops the loop at index [i]. *)
Definition passable (results : Results) (i : nat) (property : string) : Prop :=
  HasValuesByIndex results i = Ok false \/
  (HasValuesByIndex results i = Ok true /\
   exists value, ValuesString results property "," = Ok value).

End ProcessEvidence.

(** ASCII lower case, for the examples. *)
Definition lower_ascii (c : ascii) : ascii :=
  let n := nat_of_ascii c in
  if (65 <=? n)%nat && (n <=? 90)%nat then ascii_of_nat (n + 32) else c.

Fixpoint lower (s : string) : string :=
  match s with
  | EmptyString => EmptyString
  | String c s' => String (lower_ascii c) (lower s')
  end.

(** A handle with three properties, the second without values and with a
    value that does not format, and the third named like the device id. *)
Definition sample : Results :=
  {| AvailableProperties := ["IsMobile"; "BrowserName"; "DeviceId"];
     HasValuesByIndex := fun i => Ok (negb (Nat.eqb i 1));
     ValuesString := fun property _ =>
       if String.eqb property "IsMobile" then Ok "True"
       else if String.eqb property "BrowserName" then Err "no value"
       else Ok "from-property";
     DeviceId := Ok "12280-17779-17470-18092" |}.

Definition sample_output : gmap string string :=
  match processEvidence lower (Ok sample) with
  | Ok res => res
  | Err _ => ∅
  end.

End Offline.

(** * The command line options: [ParseOptions] *)
Module Flags.

Definition LiteDataFile : string := "51Degrees-LiteV4.1.hash".
Definition UaFile : string := "20000 User Agents.csv".

Record Options := MkOptions {
  DataFilePath : string;
  EvidenceFilePath : string;
  LogOutputPath : string;
  Iterations : Z;
  showHelp : bool
}.

(** The fields of [options] the flags point to. *)
Inductive string_ptr := pDataFilePath | pEvidenceFilePath | pLogOutputPath.
#[global] Instance string_ptr_eq_dec : EqDecision string_ptr.
Proof. solve_decision. Defined.
Inductive uint64_ptr := pIterations.
Inductive bool_ptr := pShowHelp.

Inductive Value :=
| stringValue (p : string_ptr)
| uint64Value (p : uint64_ptr)
| boolValue (p : bool_ptr).

Definition load_string (p : string_ptr) (o : Options) : string :=
  match p with
  | pDataFilePath => DataFilePath o
  | pEvidenceFilePath => EvidenceFilePath o
  | pLogOutputPath => LogOutputPath o
  end.

Definition store_string (p : string_ptr) (v : string) (o : Options) : Options :=
  match p with
  | pDataFilePath =>
      MkOptions v (EvidenceFilePath o) (LogOutputPath o) (Iterations o) (showHelp o)
  | pEvidenceFilePath =>
      MkOptions (DataFilePath o) v (LogOutputPath o) (Iterations o) (showHelp o)
  | pLogOutputPath =>
      MkOptions (DataFilePath o) (EvidenceFilePath o) v (Iterations o) (showHelp o)
  end.

Definition store_uint64 (p : uint64_ptr) (v : Z) (o : Options) : Options :=
  match p with
  | pIterations =>
      MkOptions (DataFilePath o) (EvidenceFilePath o) (LogOutputPath o) v (showHelp o)
  end.

Definition store_bool (p : bool_ptr) (v : bool) (o : Options) : Options :=
  match p with
  | pShowHelp =>
      MkOptions (DataFilePath o) (EvidenceFilePath o) (LogOutputPath o) (Iterations o) v
  end.

(** The flag set beside the variable the flags write to: the flags defined
    so far, by name. *)
Record FlagSet := MkFlagSet {
  options : Options;
  formal : list (string * Value)
}.

(** [flag.StringVar(p, name, value, usage)]: stores the default in [*p] and
    defines the flag. *)
Definition StringVar (p : string_ptr) (name value : string) (f : FlagSet) : FlagSet :=
  MkFlagSet (store_string p value (options f)) (formal f ++ [(name, stringValue p)]).

Definition Uint64Var (p : uint64_ptr) (name : string) (value : Z) (f : FlagSet) : FlagSet :=
  MkFlagSet (store_uint64 p value (options f)) (formal f ++ [(name, uint64Value p)]).

Definition BoolVar (p : bool_ptr) (name : string) (value : bool) (f : FlagSet) : FlagSet :=
  MkFlagSet (store_bool p value (options f)) (formal f ++ [(name, boolValue p)]).

Definition lookup_flag (name : string) (formal : list (string * Value)) : option Value :=
  snd <$> List.find (fun nv => String.eqb (fst nv) name) formal.

Section Parse.

(** [strconv.ParseUint(s, 0, 64)] and [strconv.ParseBool(s)] *)
Variable ParseUint : string -> option Z.
Variable ParseBool : string -> option bool.

(** [Value.Set] *)
Definition Set_ (v : Value) (s : string) (o : Options) : option Options :=
  match v with
  | stringValue p => Some (store_string p s o)
  | uint64Value p =>
      match ParseUint s with
      | Some n => Some (store_uint64 p n o)
      | None => None
      end
  | boolValue p =>
      match ParseBool s with
      | Some b => Some (store_bool p b o)
      | None => None
      end
  end.

(** [flag.Parse()] on the flags of the command line, in order, each as its
    name and the value given to it (["true"] for a boolean flag given
    alone). [None]: the flag is not defined or its value does not parse, and
    the flag set, created with [ExitOnError], ends the process. *)
Fixpoint Parse (args : list (string * string)) (f : FlagSet) : option Options :=
  match args with
  | [] => Some (options f)
  | (name, value) :: args' =>
      match lookup_flag name (formal f) with
      | None => None
      | Some v =>
          match Set_ v value (options f) with
          | None => None
          | Some o => Parse args' (MkFlagSet o (formal f))
          end
      end
  end.

Definition registered : FlagSet :=
  let f := MkFlagSet (MkOptions EmptyString EmptyString EmptyString 0 false) [] in
  let f := StringVar pDataFilePath "data-file" ("../" +:+ LiteDataFile) f in
  let f := StringVar pDataFilePath "d" (DataFilePath (options f)) f in
  let f := StringVar pEvidenceFilePath "user-agent-file" ("../" +:+ UaFile) f in
  let f := StringVar pEvidenceFilePath "u" (DataFilePath (options f)) f in
  let f := StringVar pLogOutputPath "log-output" EmptyString f in
  let f := StringVar pLogOutputPath "l" (LogOutputPath (options f)) f in
  let f := Uint64Var pIterations "iterations" 4 f in
  let f := Uint64Var pIterations "i" (Iterations (options f)) f in
  let f := BoolVar pShowHelp "help" false f in
  let f := BoolVar pShowHelp "h" (showHelp (options f)) f in
  f.

Definition ParseOptions (args : list (string * string)) : option Options :=
  Parse args registered.

End Parse.

(** The flag of [name] writes to the string field [p]. *)
Definition writes (p : string_ptr) (name : string) : bool :=
  match lookup_flag name (formal registered) with
  | Some (stringValue q) =>
      match p, q with
      | pDataFilePath, pDataFilePath
      | pEvidenceFilePath, pEvidenceFilePath
      | pLogOutputPath, pLogOutputPath => true
      | _, _ => false
      end
  | _ => false
  end.

(** Decimal numbers and the two words, for the examples. *)
Definition parse_uint (s : string) : option Z :=
  if String.eqb s "10" then Some 10 else if String.eqb s "4" then Some 4 else None.
Definition parse_bool (s : string) : option bool :=
  if String.eqb s "true" then Some true
  else if String.eqb s "false" then Some false else None.

End Flags.

(** * The match metrics example: [matchMetrics] and [verifyOutputFormat] *)
Module Metrics.

Definition tab : string := String (ascii_of_nat 9) EmptyString.

(** ** [regexp]: the expressions [expected] is made of, matched on bytes *)

Inductive regexp :=
| Void
| Eps
| Class (f : ascii -> bool)
| Cat (r1 r2 : regexp)
| Alt (r1 r2 : regexp)
| Star (r : regexp).

Fixpoint Lit (s : string) : regexp :=
  match s with
  | EmptyString => Eps
  | String c s' => Cat (Class (Ascii.eqb c)) (Lit s')
  end.

Definition Plus (r : regexp) : regexp := Cat r (Star r).

(** [\d] *)
Definition digit (c : ascii) : bool :=
  let n := nat_of_ascii c in (48 <=? n)%nat && (n <=? 57)%nat.

(** [.]: no byte of the encoding of a character other than the new line is
    the new line. *)
Definition dot (c : ascii) : bool := negb (Ascii.eqb c (ascii_of_nat 10)).

Definition any (c : ascii) : bool := true.

Fixpoint nullable (r : regexp) : bool :=
  match r with
  | Void => false
  | Eps => true
  | Class _ => false
  | Cat r1 r2 => nullable r1 && nullable r2
  | Alt r1 r2 => nullable r1 || nullable r2
  | Star _ => true
  end.

(** What is left of [r] after the byte [c]. *)
Fixpoint deriv (c : ascii) (r : regexp) : regexp :=
  match r with
  | Void => Void
  | Eps => Void
  | Class f => if f c then Eps else Void
  | Cat r1 r2 =>
      if nullable r1 then Alt (Cat (deriv c r1) r2) (deriv c r2)
      else Cat (deriv c r1) r2
  | Alt r1 r2 => Alt (deriv c r1) (deriv c r2)
  | Star r' => Cat (deriv c r') (Star r')
  end.

(** The whole of [s] matches [r]. *)
Fixpoint matchb (r : regexp) (s : string) : bool :=
  match s with
  | EmptyString => nullable r
  | String c s' => matchb (deriv c r) s'
  end.

(** [Regexp.Match]: some part of [b] matches [re]. *)
Definition Match (re : regexp) (b : string) : bool :=
  matchb (Cat (Star (Class any)) (Cat re (Star (Class any)))) b.

(** The language of an expression. *)
Inductive matches : regexp -> string -> Prop :=
| MEps : matches Eps EmptyString
| MClass f c : f c = true -> matches (Class f) (String c EmptyString)
| MCat r1 r2 s1 s2 :
    matches r1 s1 -> matches r2 s2 -> matches (Cat r1 r2) (s1 +:+ s2)
| MAltL r1 r2 s : matches r1 s -> matches (Alt r1 r2) s
| MAltR r1 r2 s : matches r2 s -> matches (Alt r1 r2) s
| MStar0 r : matches (Star r) EmptyString
| MStarS r s1 s2 :
    matches r s1 -> matches (Star r) s2 -> matches (Star r) (s1 +:+ s2).

(** ** The results handle as [matchMetrics] uses it *)

Inductive MatchMethod := NoMethod | Performance | Combined | Predictive.

Record Results := MkResults {
  ValuesString : string -> string -> result string;
  HasValues : string -> result bool;
  DeviceId : result string;
  Drift : Z;
  Difference : Z;
  Iterations : Z;
  Method : MatchMethod;
  UserAgent : nat -> result string
}.

Definition no_value (propertyName : string) : string :=
  "Property " +:+ propertyName +:+ " does not have a matched value." +:+ nl.

(** [matchMetrics], lines 51-104, on the results of a detection that
    succeeded (the error of [engine.Process] is not looked at). [Err] carries
    the message of the fatal log. *)
Definition matchMetrics (results : Results) : result string :=
  let propertyName := "IsMobile" in
  match ValuesString results propertyName "," with
  | Err err => Err (err +:+ nl)
  | Ok value =>
      match HasValues results propertyName with
      | Err err => Err (err +:+ nl)
      | Ok hasValues =>
          if negb hasValues then Ok (no_value propertyName)
          else
            match DeviceId results with
            | Err err => Err (err +:+ nl)
            | Ok deviceId =>
                let drift := Drift results in
                let difference := Difference results in
                let iterations := Iterations results in
                let methodStr :=
                  match Method results with
                  | Performance => "PERFORMANCE"
                  | Combined => "COMBINED"
                  | Predictive => "PREDICTIVE"
                  | NoMethod => "NONE"
                  end in
                match UserAgent results 0 with
                | Err err => Err err
                | Ok matchedUserAgent =>
                    Ok ((tab +:+ "IsMobile: " +:+ value +:+ nl)
                        +:+ (tab +:+ "Id: " +:+ deviceId +:+ nl)
                        +:+ (tab +:+ "Drift: " +:+ fmt_d drift +:+ nl)
                        +:+ (tab +:+ "Difference: " +:+ fmt_d difference +:+ nl)
                        +:+ (tab +:+ "Iterations: " +:+ fmt_d iterations +:+ nl)
                        +:+ (tab +:+ "Method: " +:+ methodStr +:+ nl)
                        +:+ (tab +:+ "Sub Strings: " +:+ matchedUserAgent +:+ nl))
                end
            end
      end
  end.

(** [expected], lines 108-114 *)
Definition expected : regexp :=
  Cat (Lit (tab +:+ "IsMobile: ")) (Cat (Alt (Lit "True") (Lit "False")) (Cat (Lit nl)
  (Cat (Lit (tab +:+ "Id: "))
    (Cat (Alt (Cat (Plus (Class digit)) (Cat (Lit "-") (Cat (Plus (Class digit))
                 (Cat (Lit "-") (Cat (Plus (Class digit)) (Cat (Lit "-")
                    (Plus (Class digit))))))))
              (Cat (Plus (Class digit)) (Cat (Lit "-") (Plus (Class digit)))))
    (Cat (Lit nl)
  (Cat (Lit (tab +:+ "Drift: ")) (Cat (Plus (Class digit)) (Cat (Lit nl)
  (Cat (Lit (tab +:+ "Difference: ")) (Cat (Plus (Class digit)) (Cat (Lit nl)
  (Cat (Lit (tab +:+ "Iterations: ")) (Cat (Plus (Class digit)) (Cat (Lit nl)
  (Cat (Lit (tab +:+ "Method: "))
    (Cat (Alt (Lit "PERFORMANCE") (Alt (Lit "PREDICTIVE")
            (Alt (Lit "COMBINED") (Lit "NONE"))))
    (Cat (Lit nl)
  (Cat (Lit (tab +:+ "Sub Strings: ")) (Cat (Star (Class dot))
    (Lit nl)))))))))))))))))))).

Definition readableFormat : string :=
  tab +:+ "IsMobile: [boolean]" +:+ nl
  +:+ tab +:+ "Id: [number-number-number-number] or [number-number]" +:+ nl
  +:+ tab +:+ "Drift: [number]" +:+ nl
  +:+ tab +:+ "Difference: [number]" +:+ nl
  +:+ tab +:+ "Iterations: [number]" +:+ nl
  +:+ tab +:+ "Method: [PERFORMANCE|COMBINED|PREDICTIVE|NONE]" +:+ nl
  +:+ tab +:+ "Sub strings: [string]" +:+ nl.

Definition does_not_match : string := "Output does not match expected." +:+ nl.

(** [verifyOutputFormat]: the lines logged, and the string returned or the
    message of the fatal log. *)
Definition verifyOutputFormat (matchReport : string)
  : list string * result string :=
  if negb (Match expected matchReport) then
    (["Expected:" +:+ nl; readableFormat +:+ nl; nl;
      "Actual:" +:+ nl; matchReport +:+ nl],
     Err does_not_match)
  else ([], Ok ("Match metrics in format:" +:+ nl +:+ readableFormat)).

(** A number of the kind [\d+] matches. *)
Fixpoint all_digit (s : string) : bool :=
  match s with
  | EmptyString => true
  | String c s' => digit c && all_digit s'
  end.

Definition number (s : string) : Prop := s <> EmptyString /\ all_digit s = true.

(** The two forms of device id [expected] has. *)
Definition id_form (deviceId : string) : Prop :=
  (exists a b c d, number a /\ number b /\ number c /\ number d /\
     deviceId = a +:+ "-" +:+ b +:+ "-" +:+ c +:+ "-" +:+ d) \/
  (exists a b, number a /\ number b /\ deviceId = a +:+ "-" +:+ b).

Definition mobile_ua : string :=
  "Mozilla/5.0 (iPhone; CPU iPhone OS 7_1 like Mac OS X) AppleWebKit/537.51.2".

Definition sample (hasValues : bool) : Results :=
  {| ValuesString := fun _ _ => Ok (if hasValues then "True" else EmptyString);
     HasValues := fun _ => Ok hasValues;
     DeviceId := Ok "12280-81243-82102-0";
     Drift := 0;
     Difference := 0;
     Iterations := 62;
     Method := Performance;
     UserAgent := fun _ => Ok mobile_ua |}.

End Metrics.

(** * Properties *)

(** ** FNV-1 and [%d] on known values *)

Example generateHash_empty : generateHash EmptyString = 2166136261.
Proof. reflexivity. Qed.

Example generateHash_a : generateHash "a" = 84696446.
Proof. reflexivity. Qed.

Example generateHash_foobar : generateHash "foobar" = 0x31f0b262.
Proof. reflexivity. Qed.

Example fmt_d_42 : fmt_d 4217895257 = "4217895257".
Proof. reflexivity. Qed.

(** ** The hash accumulator *)

Lemma updateHashCode_Some (rep : freport) (code : Z) (i : nat) (h : Z) :
  hashCodes rep !! i = Some h ->
  updateHashCode rep code i
  = Some (Freport (evidenceCount rep) (<[i := Z.lxor h code]> (hashCodes rep))
            (evidenceProcessed rep)).
Proof. intros H. unfold updateHashCode. now rewrite H. Qed.

Lemma updateHashCode_None (rep : freport) (code : Z) (i : nat) :
  hashCodes rep !! i = None -> updateHashCode rep code i = None.
Proof. intros H. unfold updateHashCode. now rewrite H. Qed.

Lemma updateHashCode_length (rep rep' : freport) (code : Z) (i : nat) :
  updateHashCode rep code i = Some rep' ->
  length (hashCodes rep') = length (hashCodes rep).
Proof.
  unfold updateHashCode. destruct (hashCodes rep !! i); [|discriminate].
  intros [= <-]. simpl. apply length_insert.
Qed.

Lemma updateHashCode_fields (rep rep' : freport) (code : Z) (i : nat) :
  updateHashCode rep code i = Some rep' ->
  evidenceCount rep' = evidenceCount rep /\
  evidenceProcessed rep' = evidenceProcessed rep.
Proof.
  unfold updateHashCode. destruct (hashCodes rep !! i); [|discriminate].
  intros [= <-]. split; reflexivity.
Qed.

Lemma updateHashCode_swap (rep : freport) (x y : Z) (i : nat) :
  updateHashCode rep x i ≫= (fun r => updateHashCode r y i)
  = updateHashCode rep y i ≫= (fun r => updateHashCode r x i).
Proof.
  destruct (hashCodes rep !! i) as [h|] eqn:Hi.
  - assert (Hlt : (i < length (hashCodes rep))%nat) by (eapply lookup_lt_Some; eauto).
    rewrite !(updateHashCode_Some _ _ _ h) by assumption. simpl.
    erewrite !updateHashCode_Some
      by (simpl; apply list_lookup_insert_eq; assumption).
    simpl. rewrite !list_insert_insert_eq.
    do 3 f_equal. rewrite !Z.lxor_assoc. f_equal. apply Z.lxor_comm.
  - now rewrite !updateHashCode_None.
Qed.

(** C10: a call of [updateHashCode] with an index inside the array returns
    normally, replaces [hashCodes[i]] by its previous value xor the code, and
    leaves every other slot, [evidenceCount] and [evidenceProcessed] as they
    were. *)
Theorem updateHashCode_frame (rep : freport) (code : Z) (i : nat) :
  (i < length (hashCodes rep))%nat ->
  exists rep' h,
    updateHashCode rep code i = Some rep' /\
    hashCodes rep !! i = Some h /\
    hashCodes rep' !! i = Some (Z.lxor h code) /\
    (forall j, j <> i -> hashCodes rep' !! j = hashCodes rep !! j) /\
    length (hashCodes rep') = length (hashCodes rep) /\
    evidenceCount rep' = evidenceCount rep /\
    evidenceProcessed rep' = evidenceProcessed rep.
Proof.
  intros Hlt.
  destruct (lookup_lt_is_Some_2 _ _ Hlt) as [h Hh].
  eexists _, h. split; [apply updateHashCode_Some, Hh|]. simpl.
  repeat split; try assumption.
  - now apply list_lookup_insert_eq.
  - intros j Hj. apply list_lookup_insert_ne. congruence.
  - apply length_insert.
Qed.

Lemma updateHashCode_frame_witness :
  exists rep' h,
    updateHashCode (Freport 8 [5; 6; 7; 8] 3) 9 2 = Some rep' /\
    hashCodes (Freport 8 [5; 6; 7; 8] 3) !! 2%nat = Some h /\
    hashCodes rep' !! 2%nat = Some (Z.lxor h 9) /\
    (forall j, j <> 2%nat ->
       hashCodes rep' !! j = hashCodes (Freport 8 [5; 6; 7; 8] 3) !! j) /\
    length (hashCodes rep') = length (hashCodes (Freport 8 [5; 6; 7; 8] 3)) /\
    evidenceCount rep' = evidenceCount (Freport 8 [5; 6; 7; 8] 3) /\
    evidenceProcessed rep' = evidenceProcessed (Freport 8 [5; 6; 7; 8] 3).
Proof. apply (updateHashCode_frame (Freport 8 [5; 6; 7; 8] 3) 9 2). simpl. lia. Defined.

(** C4: the codes folded into a slot may be folded in any order; every
    permutation of them leaves the same report, hence the same
    [hashCodes[i]]. *)
Theorem foldHashCodes_permutation (rep : freport) (i : nat) (codes codes' : list Z) :
  codes ≡ₚ codes' ->
  foldHashCodes rep i codes = foldHashCodes rep i codes'.
Proof.
  intros Hp. revert rep.
  induction Hp as [|x l l' _ IH|x y l|l l' l'' _ IH1 _ IH2]; intros rep; simpl.
  - reflexivity.
  - destruct (updateHashCode rep x i); [apply IH|reflexivity].
  - pose proof (updateHashCode_swap rep x y i) as Hsw.
    destruct (updateHashCode rep y i) as [ry|], (updateHashCode rep x i) as [rx|];
      simpl in Hsw.
    + now rewrite Hsw.
    + symmetry in Hsw. now rewrite Hsw.
    + now rewrite Hsw.
    + reflexivity.
  - now rewrite IH1.
Qed.

Lemma foldHashCodes_permutation_witness :
  foldHashCodes zero_report 1 [3; 5; 9] = foldHashCodes zero_report 1 [9; 3; 5].
Proof.
  apply (foldHashCodes_permutation zero_report 1 [3; 5; 9] [9; 3; 5]).
  change [9; 3; 5] with ([9] ++ [3; 5]). change [3; 5; 9] with ([3; 5] ++ [9]).
  apply Permutation_app_comm.
Defined.

(** ** Lists of tasks *)

Lemma sum_list_insert (f : task -> nat) (l : list task) (k : nat) (t t' : task) :
  l !! k = Some t ->
  (sum_list_with f (<[k := t']> l) + f t = sum_list_with f l + f t')%nat.
Proof.
  revert k. induction l as [|a l IH]; intros [|k] H; simpl in *; try discriminate.
  - injection H as ->. clear IH. lia.
  - specialize (IH _ H). lia.
Qed.

Lemma sum_list_snoc (f : task -> nat) (l : list task) (t : task) :
  sum_list_with f (l ++ [t]) = (sum_list_with f l + f t)%nat.
Proof. rewrite sum_list_with_app. simpl. lia. Qed.

Lemma sum_list_zero (f : task -> nat) (l : list task) (k : nat) (t : task) :
  sum_list_with f l = 0%nat -> l !! k = Some t -> f t = 0%nat.
Proof.
  revert k. induction l as [|a l IH]; intros [|k] Hs H; simpl in *; try discriminate.
  - injection H as ->. clear IH. lia.
  - apply (IH k); [clear IH; lia|assumption].
Qed.

Lemma sum_list_le_length (f : task -> nat) (l : list task) :
  (forall t, f t <= 1)%nat -> (sum_list_with f l <= length l)%nat.
Proof.
  intros Hf. induction l as [|a l IH]; simpl; [lia|].
  specialize (Hf a). lia.
Qed.

Lemma sum_list_all (f g : task -> nat) (l : list task) :
  (forall t, g t = 0 -> f t = 1)%nat -> sum_list_with g l = 0%nat ->
  sum_list_with f l = length l.
Proof.
  intros Hf. induction l as [|a l IH]; simpl; [reflexivity|].
  intros Hs. apply Nat.eq_add_0 in Hs as [Ha Hl].
  rewrite (IH Hl), (Hf _ Ha). reflexivity.
Qed.

Lemma key_insert (l : list task) (k : nat) (t t' : task) :
  l !! k = Some t -> key t' = key t ->
  key <$> <[k := t']> l = key <$> l.
Proof.
  intros H Hk. rewrite list_fmap_insert. apply list_insert_id.
  rewrite list_lookup_fmap, H, Hk. reflexivity.
Qed.

Lemma passes_S (file : list Doc) (n : nat) :
  passes file (S n) = passes file n ++ map (pair n) file.
Proof.
  unfold passes. rewrite seq_S, flat_map_app. simpl. now rewrite app_nil_r.
Qed.

Lemma passes_length (file : list Doc) (n : nat) :
  length (passes file n) = (n * length file)%nat.
Proof.
  induction n as [|n IH]; [reflexivity|].
  rewrite passes_S, length_app, length_map, IH. lia.
Qed.

Lemma uint64_succ (n : nat) :
  uint64 (uint64 (Z.of_nat n) + 1) = uint64 (Z.of_nat (n + 1)).
Proof.
  unfold uint64. rewrite Nat2Z.inj_add. simpl (Z.of_nat 1).
  now rewrite Zplus_mod_idemp_l.
Qed.

(** ** Invariants of a run *)

Ltac unfold_step :=
  unfold step, step_disp, step_process, step_task, step_main, attempt_reload,
    construct_report in *.

Ltac unfold_counting := unfold counting in *.

(** Every case of one step. *)
Ltac step_cases H :=
  unfold step, step_disp, step_process, step_task, step_main,
    attempt_reload, construct_report in H;
  simpl in H;
  repeat
    (first
       [ match goal with t : task |- _ => destruct t; simpl in H end
       | match type of H with
         | context [match ?x with _ => _ end] => destruct x eqn:?
         end ];
     try discriminate H);
  injection H as <-; simpl in *.

Section RunProperties.

Variable evidenceFilePath : string.
Variable file : list Doc.
Variable count : Z.

Local Abbreviation step := (step evidenceFilePath file).
Local Abbreviation exec := (exec evidenceFilePath file).
Local Abbreviation start := (start count).
Local Abbreviation Reachable := (Reachable evidenceFilePath file count).
Local Abbreviation counting := (counting file count).

Lemma exec_invariant (P : state -> Prop) :
  (forall l s s', P s -> step l s = Some s' -> P s') ->
  forall ls s s', P s -> exec ls s = Some s' -> P s'.
Proof.
  intros Hstep ls. induction ls as [|l ls IH]; intros s s' Hs H; simpl in H.
  - now injection H as <-.
  - destruct (step l s) as [s1|] eqn:H1; [|discriminate].
    eapply IH; [|exact H]. eapply Hstep; eauto.
Qed.

Lemma reachable_invariant (P : state -> Prop) :
  P start ->
  (forall l s s', P s -> step l s = Some s' -> P s') ->
  forall s, Reachable s -> P s.
Proof. intros H0 Hstep s [ls Hls]. eapply exec_invariant; eauto. Qed.

Lemma exec_app (ls ls' : list label) (s : state) :
  exec (ls ++ ls') s = exec ls s ≫= exec ls'.
Proof.
  revert s. induction ls as [|l ls IH]; intros s; simpl; [reflexivity|].
  destruct (step l s); [apply IH|reflexivity].
Qed.

Lemma reachable_step (l : label) (s s' : state) :
  Reachable s -> step l s = Some s' -> Reachable s'.
Proof.
  intros [ls Hls] H. exists (ls ++ [l]). rewrite exec_app, Hls. simpl. now rewrite H.
Qed.

(** *** Counting: the wait group, the progress counter, the tasks started *)

Lemma counting_start : counting start.
Proof.
  unfold_counting; simpl. repeat split; try reflexivity; try lia; try discriminate.
Qed.

Lemma counting_step (l : label) (s s' : state) :
  counting s -> step l s = Some s' -> counting s'.
Proof.
  unfold_counting. destruct s; simpl.
  intros (Hwg & Hp & Hd & Hj & Hc) H. step_cases H.
  all: repeat match goal with
       | H : _ /\ _ |- _ => destruct H
       | H : exists _, _ |- _ => destruct H
       | H : updateHashCode _ _ _ = Some _ |- _ =>
           apply updateHashCode_fields in H
       end.
  all: try (erewrite key_insert by (try eassumption; reflexivity)).
  all: try match goal with
       | H : ?l !! ?k = Some ?t |- context [<[?k := ?t']> ?l] =>
           pose proof (sum_list_insert pending l k t t' H);
           pose proof (sum_list_insert counted l k t t' H)
       end.
  all: rewrite ?sum_list_snoc, ?fmap_app.
  all: simpl in *.
  all: repeat split; try solve [assumption | lia | discriminate | congruence | eauto].
  all: try solve [intros Hjn; specialize (Hj Hjn); lia].
  all: try match goal with
       | Hs : (sum_list_with counted ?l' + ?a = ?x + ?b)%nat
         |- context [sum_list_with counted ?l'] =>
           first [ replace (sum_list_with counted l') with x by lia
                 | replace (sum_list_with counted l') with (x + 1)%nat by lia ]
       end.
  all: try solve [congruence | rewrite <- uint64_succ; congruence].
  - exists []. simpl. now rewrite app_nil_r.
  - assert (i = fIterationCount) as -> by lia. assumption.
  - rewrite app_nil_r in *. rewrite passes_S.
    match goal with Hf : file = _ |- _ => now rewrite Hf at 2 end.
  - now rewrite Nat.add_0_r.
  - match goal with
    | Hf : file = ?done ++ ?doc :: _ |- _ =>
        exists (done ++ [doc]); split;
        [ now rewrite <- app_assoc
        | rewrite map_app, app_assoc; simpl; congruence ]
    end.
Qed.

Lemma counting_reachable (s : state) : Reachable s -> counting s.
Proof. apply reachable_invariant; [apply counting_start|apply counting_step]. Qed.

(** Once [wg.Wait()] has returned, every record of every pass has a task,
    and each of them has done its atomic add. *)
Lemma joined_all_counted (s : state) :
  Reachable s -> joined (main s) = true ->
  key <$> tasks s = passes file fIterationCount /\
  sum_list_with counted (tasks s) = (fIterationCount * length file)%nat.
Proof.
  intros Hr Hj. destruct (counting_reachable s Hr) as (Hwg & _ & Hd & Hjw & _).
  specialize (Hjw Hj). rewrite Hjw in Hwg.
  destruct (disp s); simpl in Hwg, Hd; try lia.
  destruct Hd as [_ Hd]. split; [assumption|].
  rewrite (sum_list_all counted pending).
  - rewrite <- (length_fmap key), Hd. apply passes_length.
  - intros [e i pc]; simpl. destruct pc; simpl; congruence.
  - lia.
Qed.

Lemma counted_le_expected (s : state) :
  Reachable s ->
  (sum_list_with counted (tasks s) <= fIterationCount * length file)%nat.
Proof.
  intros Hr. destruct (counting_reachable s Hr) as (_ & _ & Hd & _ & _).
  etransitivity; [apply sum_list_le_length|].
  - intros [e i pc]; simpl. destruct pc; simpl; lia.
  - rewrite <- (length_fmap key).
    destruct (disp s) as [i|i docs|n]; simpl in Hd.
    + destruct Hd as [Hi ->]. rewrite passes_length. nia.
    + destruct Hd as (Hi & done & Hf & ->).
      rewrite length_app, passes_length, length_map.
      assert (Hl : length file = (length done + length docs)%nat)
        by (rewrite Hf at 1; apply length_app).
      clear Hf. nia.
    + destruct Hd as [_ ->]. now rewrite passes_length.
Qed.

(** *** The trace and the program points *)

Lemma count_ev_snoc (e e' : event) (tr : list event) :
  count_ev e (tr ++ [e'])
  = (count_ev e tr + if decide (e = e') then 1 else 0)%nat.
Proof.
  unfold count_ev. rewrite filter_app, length_app, filter_cons, filter_nil.
  now destruct (decide (e = e')).
Qed.

Lemma folds_of_snoc (k : nat) (e : event) (tr : list event) :
  folds_of k (tr ++ [e])
  = folds_of k tr ++ match fold_of k e with Some f => [f] | None => [] end.
Proof. unfold folds_of. rewrite omap_app. simpl. now destruct (fold_of k e). Qed.

Lemma other_task (e : event) (k k' : nat) :
  task_of e = Some k -> k' <> k ->
  EvAdd k' <> e /\ EvFree k' <> e /\ fold_of k' e = None.
Proof.
  intros He Hk. destruct e; simpl in *; try discriminate; injection He as ->;
    repeat split; try congruence.
  now destruct (decide (k = k')); [congruence|].
Qed.

Lemma fresh_task (n : nat) (tr : list event) (k : nat) :
  Forall (fun e => forall k, task_of e = Some k -> (k < n)%nat) tr ->
  (n <= k)%nat ->
  count_ev (EvAdd k) tr = 0%nat /\ count_ev (EvFree k) tr = 0%nat /\
  folds_of k tr = [].
Proof.
  intros Hf Hk. induction Hf as [|e tr He _ (IHa & IHf & IHo)].
  - now repeat split.
  - unfold count_ev, folds_of in *. rewrite !filter_cons. simpl.
    destruct e as [k' i c|k'|k'|k'|ok]; simpl in *.
    all: try (specialize (He k' eq_refl)).
    all: repeat (destruct (decide _) as [Heq|Hne];
                 [try discriminate Heq; try (injection Heq as Heq); try lia|]).
    all: now repeat split.
Qed.

Lemma traced_event (ts : list task) (tr : list event) (k : nat) (t t' : task)
    (e : event) :
  traced ts tr -> ts !! k = Some t -> task_of e = Some k ->
  count_ev (EvAdd k) (tr ++ [e]) = counted t' ->
  count_ev (EvFree k) (tr ++ [e]) = freed t' ->
  folds_ok t' (folds_of k (tr ++ [e])) ->
  traced (<[k := t']> ts) (tr ++ [e]).
Proof.
  intros [Hall Hts] Hk He Ha Hf Ho. split.
  - rewrite length_insert. apply Forall_app. split; [assumption|].
    apply Forall_singleton. intros k' He'. rewrite He in He'. injection He' as <-.
    eapply lookup_lt_Some; eauto.
  - intros k' t1 H1. destruct (decide (k' = k)) as [->|Hne].
    + rewrite list_lookup_insert_eq in H1 by (eapply lookup_lt_Some; eauto).
      injection H1 as <-. auto.
    + rewrite list_lookup_insert_ne in H1 by congruence.
      destruct (other_task e k k' He Hne) as (Hea & Hef & Heo).
      rewrite !count_ev_snoc, folds_of_snoc, Heo, app_nil_r.
      rewrite !decide_False by assumption. rewrite !Nat.add_0_r. auto.
Qed.

Lemma traced_pc (ts : list task) (tr : list event) (k : nat) (t t' : task) :
  traced ts tr -> ts !! k = Some t ->
  counted t' = counted t -> freed t' = freed t ->
  folds_ok t' (folds_of k tr) ->
  traced (<[k := t']> ts) tr.
Proof.
  intros [Hall Hts] Hk Ha Hf Ho. split.
  - now rewrite length_insert.
  - intros k' t1 H1. destruct (decide (k' = k)) as [->|Hne].
    + rewrite list_lookup_insert_eq in H1 by (eapply lookup_lt_Some; eauto).
      injection H1 as <-. destruct (Hts k t Hk) as (? & ? & _).
      repeat split; congruence.
    + rewrite list_lookup_insert_ne in H1 by congruence. auto.
Qed.

Lemma traced_spawn (ts : list task) (tr : list event) (doc : Doc) (i : nat) :
  traced ts tr -> traced (ts ++ [Task doc i TProcess]) tr.
Proof.
  intros [Hall Hts]. split.
  - rewrite length_app. eapply Forall_impl; [exact Hall|].
    intros e He k Hk. specialize (He k Hk). lia.
  - intros k t Hk. apply lookup_app_Some in Hk as [Hk|[Hlen Hk]]; [auto|].
    apply list_lookup_singleton_Some in Hk as [_ <-].
    destruct (fresh_task (length ts) tr k Hall Hlen) as (-> & -> & Ho).
    simpl. unfold folds_ok. simpl. auto.
Qed.

Lemma traced_chtimes (ts : list task) (tr : list event) (ok : bool) :
  traced ts tr -> traced ts (tr ++ [EvChtimes ok]).
Proof.
  intros [Hall Hts]. split.
  - apply Forall_app. split; [assumption|]. apply Forall_singleton. discriminate.
  - intros k t Hk. rewrite !count_ev_snoc, folds_of_snoc. simpl.
    rewrite ?decide_False by discriminate. rewrite !Nat.add_0_r, app_nil_r. auto.
Qed.

Lemma tracing_step (l : label) (s s' : state) :
  tracing s -> step l s = Some s' -> tracing s'.
Proof.
  unfold tracing. destruct s; simpl.
  intros Ht H. step_cases H.
  all: try assumption.
  all: try solve [now apply traced_spawn | now apply traced_chtimes].
  all: try match goal with
       | Hk : ?ts !! ?k = Some ?t |- traced (<[?k := ?t']> ?ts) (_ ++ [?e]) =>
           destruct (proj2 Ht k t Hk) as (Ha & Hf & Ho);
           apply (traced_event ts _ k t t' e Ht Hk eq_refl)
       | Hk : ?ts !! ?k = Some ?t |- traced (<[?k := ?t']> ?ts) _ =>
           destruct (proj2 Ht k t Hk) as (Ha & Hf & Ho);
           apply (traced_pc ts _ k t t' Ht Hk)
       end.
  all: rewrite ?count_ev_snoc, ?folds_of_snoc; simpl in *.
  all: rewrite ?decide_True by reflexivity; rewrite ?decide_False by discriminate.
  all: try lia.
  all: rewrite ?app_nil_r; unfold folds_ok in *; simpl in *.
  - exists []. rewrite Ho. split; [reflexivity|constructor].
  - destruct Ho as (done & -> & Ho). now rewrite app_nil_r.
  - destruct Ho as (done & -> & Ho).
    match goal with
    | Hv : ValuesString _ ?p _ = Ok ?v |- _ =>
        exists (done ++ [p]); split;
        [ now rewrite <- app_assoc
        | apply Forall2_app; [assumption|]; repeat constructor; now exists v ]
    end.
  - assumption.
  - assumption.
Qed.

Lemma tracing_reachable (s : state) : Reachable s -> tracing s.
Proof.
  apply reachable_invariant; [|apply tracing_step].
  split; [constructor|]. intros k t Hk. discriminate.
Qed.

(** *** The slots and the trace *)

Lemma xor_all_snoc (codes : list Z) (code : Z) :
  xor_all (codes ++ [code]) = Z.lxor (xor_all codes) code.
Proof.
  induction codes as [|c codes IH]; simpl.
  - now rewrite Z.lxor_0_r.
  - fold (xor_all (codes ++ [code])). fold (xor_all codes).
    now rewrite IH, Z.lxor_assoc.
Qed.

Lemma xor_all_permutation (codes codes' : list Z) :
  codes ≡ₚ codes' -> xor_all codes = xor_all codes'.
Proof.
  induction 1 as [|x l l' _ IH|x y l|l l' l'' _ IH1 _ IH2]; simpl.
  - reflexivity.
  - fold (xor_all l). fold (xor_all l'). now rewrite IH.
  - fold (xor_all l). rewrite <- !Z.lxor_assoc. f_equal. apply Z.lxor_comm.
  - congruence.
Qed.

Lemma slot_codes_snoc (i : nat) (e : event) (tr : list event) :
  slot_codes i (tr ++ [e])
  = slot_codes i tr ++ match code_of i e with Some c => [c] | None => [] end.
Proof. unfold slot_codes. rewrite omap_app. simpl. now destruct (code_of i e). Qed.

Lemma hashed_other (hs : list Z) (tr : list event) (e : event) :
  (forall i, code_of i e = None) -> hashed hs tr -> hashed hs (tr ++ [e]).
Proof.
  unfold hashed. intros He ->. apply list_fmap_ext. intros _ i _.
  now rewrite slot_codes_snoc, He, app_nil_r.
Qed.

Lemma hashed_fold (hs : list Z) (tr : list event) (k it : nat) (h code : Z) :
  hashed hs tr -> hs !! it = Some h ->
  hashed (<[it := Z.lxor h code]> hs) (tr ++ [EvFold k it code]).
Proof.
  unfold hashed. intros -> Hit. apply list_eq. intros j.
  pose proof (lookup_lt_Some _ _ _ Hit) as Hlt.
  rewrite list_lookup_fmap in Hit.
  destruct (decide (j = it)) as [->|Hne].
  - rewrite list_lookup_insert_eq by assumption.
    rewrite list_lookup_fmap.
    destruct (seq 0 fIterationCount !! it) as [i|] eqn:Hi; [|discriminate].
    apply lookup_seq in Hi as [-> _]. simpl in *. injection Hit as <-.
    rewrite slot_codes_snoc. simpl. rewrite decide_True by reflexivity.
    now rewrite xor_all_snoc.
  - rewrite list_lookup_insert_ne by congruence. rewrite !list_lookup_fmap.
    destruct (seq 0 fIterationCount !! j) as [i|] eqn:Hi; [|reflexivity].
    apply lookup_seq in Hi as [-> _]. simpl.
    rewrite slot_codes_snoc. simpl. rewrite decide_False by congruence.
    now rewrite app_nil_r.
Qed.

Lemma hashing_step (l : label) (s s' : state) :
  hashing s -> step l s = Some s' -> hashing s'.
Proof.
  unfold hashing. destruct s; simpl.
  intros Hh H. step_cases H.
  all: try assumption.
  all: try solve [now apply hashed_other].
  unfold updateHashCode in *.
  destruct (hashCodes rep0 !! t_iteration0) as [h|] eqn:Hit; [|discriminate].
  match goal with Hu : Some _ = Some _ |- _ => injection Hu as <- end.
  simpl. now apply hashed_fold.
Qed.

Lemma hashing_reachable (s : state) : Reachable s -> hashing s.
Proof. apply reachable_invariant; [reflexivity|apply hashing_step]. Qed.

(** The value of a slot depends on the codes folded into it, not on the
    order in which the tasks folded them. *)
Lemma slot_value (s : state) (i : nat) :
  Reachable s -> (i < fIterationCount)%nat ->
  hashCodes (rep s) !! i = Some (xor_all (slot_codes i (trace s))).
Proof.
  intros Hr Hi. rewrite (hashing_reachable s Hr), list_lookup_fmap.
  now rewrite (lookup_seq_lt 0 fIterationCount i Hi).
Qed.

Lemma slot_order_independent (s1 s2 : state) (i : nat) :
  Reachable s1 -> Reachable s2 -> (i < fIterationCount)%nat ->
  slot_codes i (trace s1) ≡ₚ slot_codes i (trace s2) ->
  hashCodes (rep s1) !! i = hashCodes (rep s2) !! i.
Proof.
  intros H1 H2 Hi Hp. rewrite !slot_value by assumption.
  f_equal. now apply xor_all_permutation.
Qed.

(** *** No index out of range, no negative wait group counter *)

Lemma ranged_step (l : label) (s s' : state) :
  ranged s -> step l s = Some s' -> ranged s'.
Proof.
  unfold ranged. destruct s; simpl.
  intros (Hlen & Hts & Hd) H. step_cases H.
  all: repeat match goal with
       | Hu : updateHashCode _ _ _ = Some _ |- _ =>
           apply updateHashCode_length in Hu
       end.
  all: repeat split; try assumption; try congruence; try discriminate.
  all: try solve [intros ? ? [= <- _]; eauto].
  all: try match goal with
       | Hk : _ !! _ = Some _ |- _ =>
           eapply Forall_lookup_1 in Hk; [|exact Hts];
           apply Forall_insert; assumption
       end.
  apply Forall_app. split; [assumption|]. apply Forall_singleton. simpl. eauto.
Qed.

Lemma ranged_reachable (s : state) : Reachable s -> ranged s.
Proof.
  apply reachable_invariant; [|apply ranged_step].
  unfold ranged; simpl. repeat split; [constructor|discriminate].
Qed.

Lemma compare_hashCodes_in_range (hs : list Z) (msg : string) :
  length hs = fIterationCount ->
  snd (compare_hashCodes hs (seq 0 fIterationCount) 0) <> Panic msg.
Proof.
  intros Hlen. destruct hs as [|a [|b [|c [|d [|]]]]]; try discriminate Hlen.
  unfold compare_hashCodes. simpl.
  repeat (destruct (decide _); simpl); discriminate.
Qed.

Lemma reachable_last (s : state) :
  Reachable s -> s = start \/ exists l s0, Reachable s0 /\ step l s0 = Some s.
Proof.
  intros [ls Hls]. destruct ls as [|l ls _] using rev_ind.
  - left. now injection Hls as <-.
  - right. rewrite exec_app in Hls.
    destruct (exec ls start) as [s0|] eqn:H0; [|discriminate].
    simpl in Hls. destruct (step l s0) as [s1|] eqn:H1; [|discriminate].
    injection Hls as <-. exists l, s0. split; [now exists ls|assumption].
Qed.

Lemma no_panic_step (l : label) (s s' : state) (msg : string) :
  counting s -> ranged s -> step l s = Some s' -> st s' <> Panic msg.
Proof.
  unfold_counting. unfold ranged. destruct s; simpl.
  intros (Hwg & _ & Hd & _ & _) (Hlen & Hts & _) H. step_cases H.
  all: try discriminate.
  all: exfalso.
  - eapply Forall_lookup_1 in Hts; [|eassumption]. simpl in Hts.
    unfold updateHashCode in *.
    destruct (hashCodes rep0 !! t_iteration0) eqn:Hit; [discriminate|].
    apply lookup_ge_None in Hit. lia.
  - match goal with
    | Hk : tasks0 !! _ = Some ?t |- _ =>
        assert (Hp : pending t = 0%nat)
          by (eapply (sum_list_zero pending); [|exact Hk]; lia)
    end.
    discriminate Hp.
  - eapply compare_hashCodes_in_range; eassumption.
Qed.

Lemma no_panic (s : state) (msg : string) : Reachable s -> st s <> Panic msg.
Proof.
  intros Hr. destruct (reachable_last s Hr) as [->|(l & s0 & Hr0 & H)].
  - discriminate.
  - eapply no_panic_step;
      [apply counting_reachable|apply ranged_reachable|exact H]; assumption.
Qed.

(** ** The per-record task *)

(** C1, as amended: a task that has returned has made one fold per
    property the engine reported as available, in the order reported,
    each into the slot of its iteration and each of the hash of that
    property's value; with no available property it has made no fold. It has
    incremented [evidenceProcessed] exactly once, and the slots hold the xor
    of the codes folded into them. *)
Theorem task_folds_per_property (s : state) (k : nat) (t : task) (results : Results) :
  Reachable s -> tasks s !! k = Some t -> t_pc t = TReturned results ->
  Forall2 (folded (t_iteration t) results) (AvailableProperties results)
    (folds_of k (trace s)) /\
  (AvailableProperties results = [] -> folds_of k (trace s) = []) /\
  count_ev (EvAdd k) (trace s) = 1%nat /\
  hashed (hashCodes (rep s)) (trace s).
Proof.
  intros Hr Hk Hpc.
  destruct (proj2 (tracing_reachable s Hr) k t Hk) as (Ha & _ & Ho).
  unfold folds_ok in Ho. destruct t as [e i pc]. simpl in *. subst pc.
  repeat split.
  - assumption.
  - intros Hnil. rewrite Hnil in Ho. now inversion Ho.
  - assumption.
  - apply (hashing_reachable s Hr).
Qed.

(** C9, as amended: a task that has returned has released its results
    handle exactly once; at every other program point, among them the one
    at which [log.Fatalln] ended the process on a [ValuesString] error, the
    handle has not been released. *)
Theorem free_once_on_return (s : state) (k : nat) (t : task) :
  Reachable s -> tasks s !! k = Some t ->
  (forall results, t_pc t = TReturned results ->
     count_ev (EvFree k) (trace s) = 1%nat) /\
  ((forall results, t_pc t <> TReturned results) ->
     count_ev (EvFree k) (trace s) = 0%nat).
Proof.
  intros Hr Hk.
  destruct (proj2 (tracing_reachable s Hr) k t Hk) as (_ & Hf & _).
  destruct t as [e i pc]. simpl in *. rewrite Hf. split.
  - now intros results ->.
  - intros Hne. destruct pc; try reflexivity. now destruct (Hne results).
Qed.

(** ** Completeness *)

(** C2: once [wg.Wait()] has returned, [evidenceProcessed] is the number of
    records times [fIterationCount]; the tasks are those of every record of
    every pass, and each has made its increment exactly once. *)
Theorem processed_after_join (s : state) :
  Z.of_nat (length file) * Z.of_nat fIterationCount < 2 ^ 64 ->
  Reachable s -> joined (main s) = true ->
  evidenceProcessed (rep s) = Z.of_nat (length file) * Z.of_nat fIterationCount /\
  key <$> tasks s = passes file fIterationCount /\
  (forall k t, tasks s !! k = Some t -> count_ev (EvAdd k) (trace s) = 1%nat).
Proof.
  intros Hsmall Hr Hj.
  destruct (joined_all_counted s Hr Hj) as [Hkeys Hsum].
  destruct (counting_reachable s Hr) as (Hwg & Hp & _ & Hjw & _).
  repeat split.
  - rewrite Hp, Hsum, Nat2Z.inj_mul, Z.mul_comm. unfold uint64.
    apply Z.mod_small. lia.
  - assumption.
  - intros k t Hk.
    destruct (proj2 (tracing_reachable s Hr) k t Hk) as (-> & _ & _).
    rewrite (Hjw Hj) in Hwg.
    assert (Hpend : pending t = 0%nat)
      by (apply (sum_list_zero pending (tasks s) k); [lia|assumption]).
    destruct t as [e i pc]. simpl in *. now destruct pc.
Qed.

(** ** The reload driver *)

Lemma int64_small (z : Z) : - 2 ^ 63 <= z < 2 ^ 63 -> int64 z = z.
Proof. intros Hz. unfold int64. rewrite Z.mod_small; lia. Qed.

(** C6: at the head of the loop with work outstanding, one attempt (the
    check, [os.Chtimes], the sleep) comes back to the head of the loop with
    the process alive, whatever [os.Chtimes] answered: a failure adds one to
    [reloadFails] only, a success adds one to [reloads] only, and nothing
    else of the run changes. The loop is left, without an attempt, exactly
    when [evidenceProcessed] has reached [evidenceCount]. *)
Theorem reload_attempt (ok : bool) (s : state) :
  st s = Running -> main s = MLoop ->
  (evidenceProcessed (rep s) < evidenceCount (rep s) ->
   exists s',
     exec [LMain ok; LMain ok] s = Some s' /\
     st s' = Running /\ main s' = MLoop /\
     reloads s' = (if ok then int64 (reloads s + 1) else reloads s) /\
     reloadFails s' = (if ok then reloadFails s else int64 (reloadFails s + 1)) /\
     trace s' = trace s ++ [EvChtimes ok] /\
     rep s' = rep s /\ wg s' = wg s /\ disp s' = disp s /\
     tasks s' = tasks s /\ logs s' = logs s) /\
  (~ evidenceProcessed (rep s) < evidenceCount (rep s) ->
   step (LMain ok) s = Some (with_main MWait s)).
Proof.
  intros Hst Hm. destruct s; simpl in *. subst. split; intros Hlt.
  - unfold exec; unfold_step; simpl.
    rewrite decide_True by assumption.
    destruct ok; simpl; (eexists; split; [reflexivity|]); simpl; now repeat split.
  - unfold_step; simpl. now rewrite decide_False by assumption.
Qed.

(** ** Reload tolerance *)

Lemma step_agree (a b : label) (s1 s2 s1' : state) :
  same_label a b -> agree s1 s2 -> step a s1 = Some s1' ->
  exists s2', step b s2 = Some s2' /\ agree s1' s2'.
Proof.
  intros Hab (Hrep & Hwg & Hd & Hts & Hm & Hst) H.
  destruct s1, s2; simpl in *; subst.
  destruct a, b; simpl in Hab; try discriminate Hab; inversion Hab; subst.
  all: step_cases H.
  all: unfold_step; simpl in *.
  all: eexists; split;
    [ repeat match goal with
             | Hx : _ = _ |- _ => progress (rewrite Hx; simpl)
             end; try reflexivity
    | unfold agree; simpl;
      repeat match goal with
             | |- context [if ?b then _ else _] => destruct b; simpl
             end;
      try (now repeat split) ].
Qed.

Lemma exec_agree (ls1 ls2 : list label) (s1 s2 s1' : state) :
  Forall2 same_label ls1 ls2 -> agree s1 s2 -> exec ls1 s1 = Some s1' ->
  exists s2', exec ls2 s2 = Some s2' /\ agree s1' s2'.
Proof.
  intros Hls. revert s1 s2.
  induction Hls as [|a b ls1 ls2 Hab _ IH]; intros s1 s2 Hs H; simpl in *.
  - injection H as <-. eauto.
  - destruct (step a s1) as [t1|] eqn:Ha; [|discriminate].
    destruct (step_agree a b s1 s2 t1 Hab Hs Ha) as (t2 & -> & Ht). eauto.
Qed.

(** C8: two runs under schedules that differ only in the outcomes of
    [os.Chtimes] go through the same states up to the reload counters: at
    every point, so also after the join, [hashCodes], [evidenceProcessed]
    and [evidenceCount], the tasks, the wait group, the program points and
    the outcome are identical. *)
Theorem reload_outcomes_irrelevant (ls1 ls2 : list label) (s1 : state) :
  Forall2 same_label ls1 ls2 -> exec ls1 start = Some s1 ->
  exists s2,
    exec ls2 start = Some s2 /\
    hashCodes (rep s2) = hashCodes (rep s1) /\
    evidenceProcessed (rep s2) = evidenceProcessed (rep s1) /\
    evidenceCount (rep s2) = evidenceCount (rep s1) /\
    tasks s2 = tasks s1 /\ wg s2 = wg s1 /\ disp s2 = disp s1 /\
    main s2 = main s1 /\ st s2 = st s1.
Proof.
  intros Hls H.
  destruct (exec_agree ls1 ls2 start start s1 Hls) as (s2 & H2 & Hag);
    [now repeat split|assumption|].
  destruct Hag as (Hrep & Hwg & Hd & Hts & Hm & Hst).
  exists s2. rewrite Hrep. now repeat split.
Qed.

End RunProperties.

(** ** The progress counter never passes the expected total *)

(** C7: at every point of a run [evidenceProcessed] is at most
    [evidenceCount], which is the number of records times
    [fIterationCount], as set before [performDetectionIterations] was
    started. *)
Theorem processed_le_expected (evidenceFilePath : string) (file : list Doc)
    (s : state) :
  Z.of_nat (length file) * Z.of_nat fIterationCount < 2 ^ 64 ->
  Reachable evidenceFilePath file (CountEvidenceFromFiles file) s ->
  evidenceProcessed (rep s) <= evidenceCount (rep s) /\
  evidenceCount (rep s) = Z.of_nat (length file) * Z.of_nat fIterationCount /\
  evidenceCount (rep s) = evidenceCount (rep (start (CountEvidenceFromFiles file))).
Proof.
  intros Hsmall Hr.
  destruct (counting_reachable _ _ _ s Hr) as (_ & Hp & _ & _ & Hc).
  pose proof (counted_le_expected _ _ _ s Hr) as Hle.
  assert (Hfour : 0 < Z.of_nat fIterationCount) by (unfold fIterationCount; lia).
  assert (Hcount : CountEvidenceFromFiles file = Z.of_nat (length file)).
  { unfold CountEvidenceFromFiles, uint64. apply Z.mod_small. nia. }
  rewrite Hcount in Hc. unfold uint64 in Hc, Hp.
  rewrite Z.mod_small in Hc by lia.
  rewrite Z.mod_small in Hp by nia.
  repeat split.
  - rewrite Hp, Hc. nia.
  - assumption.
  - simpl. rewrite Hcount. unfold uint64. now rewrite Z.mod_small by lia.
Qed.

(** ** An evidence file without records *)

Lemma idle_step (evidenceFilePath : string) (l : label) (s s' : state) :
  idle s -> step evidenceFilePath [] l s = Some s' -> idle s'.
Proof.
  unfold idle. destruct s; simpl.
  intros (-> & -> & -> & -> & -> & Hm & Hd & Hdone & Hlogs) H.
  step_cases H.
  all: try discriminate.
  all: try lia.
  all: try solve [specialize (Hd _ _ eq_refl); discriminate].
  all: repeat split; try assumption; try discriminate; try congruence.
  all: try solve [eapply Hdone; eauto].
  all: try solve [intros _; apply Hlogs; discriminate].
  all: try solve [intros Hx; now destruct (Hx _ eq_refl)].
  all: try solve [rewrite Hlogs by discriminate; reflexivity].
Qed.

Lemma idle_reachable (evidenceFilePath : string) (s : state) :
  Reachable evidenceFilePath [] (CountEvidenceFromFiles []) s -> idle s.
Proof.
  apply reachable_invariant; [|apply idle_step].
  unfold idle; simpl. repeat split; try reflexivity; try discriminate.
Qed.

(** C5: with an evidence file without records [evidenceCount] is 0; the
    loop of line 148 is left at its first test, so that no reload is ever
    attempted and both counters stay 0; every slot keeps the zero hash; and
    when the report is constructed it is the one of a successful run. *)
Theorem empty_file_run (evidenceFilePath : string) (s : state) :
  Reachable evidenceFilePath [] (CountEvidenceFromFiles []) s ->
  evidenceCount (rep s) = 0 /\
  (forall ok,
     step evidenceFilePath [] (LMain ok) (start (CountEvidenceFromFiles []))
     = Some (with_main MWait (start (CountEvidenceFromFiles [])))) /\
  main s <> MSleep /\
  reloads s = 0 /\ reloadFails s = 0 /\
  (forall ok, count_ev (EvChtimes ok) (trace s) = 0%nat) /\
  hashCodes (rep s) = replicate fIterationCount 0 /\
  (forall ok s',
     main s = MReport -> step evidenceFilePath [] (LMain ok) s = Some s' ->
     st s' = Running /\ main s' = MDone complete /\ logs s' = report0) /\
  (forall ret, main s = MDone ret -> ret = complete /\ logs s = report0).
Proof.
  intros Hr. pose proof (idle_reachable _ s Hr) as Hidle.
  destruct Hidle as (Hrep & Hts & Hre & Hrf & Htr & Hm & Hd & Hdone & Hlogs).
  rewrite Hrep, Htr. repeat split; try assumption; try reflexivity.
  all: try solve [eapply Hdone; eauto].
  all: destruct s; simpl in *; subst.
  all: match goal with
       | Hs : _ = Some _ |- _ => step_cases Hs
       end.
  all: try match goal with
       | Hc : snd (compare_hashCodes _ _ _) = _ |- _ =>
           vm_compute in Hc; discriminate Hc
       end.
  all: try reflexivity.
  rewrite Hlogs by discriminate. reflexivity.
Qed.

(** ** The report *)

Lemma report_all_equal (reloads reloadFails h : Z) :
  construct_report reloads reloadFails (replicate fIterationCount h)
  = ([reloaded_line reloads; failed_line reloadFails; hashcode_line h 0;
      hashcode_line h 1; hashcode_line h 2; hashcode_line h 3], Running).
Proof.
  unfold construct_report, compare_hashCodes. simpl.
  now rewrite !decide_True by reflexivity.
Qed.

(** The operands of the fatal log of line 171 are the initial hash code,
    the hash code of the first slot that differs, and the index of that
    slot, in this order. *)
Lemma report_mismatch (reloads reloadFails : Z) (hs : list Z) (i : nat) (h0 hi : Z) :
  length hs = fIterationCount -> (0 < i)%nat ->
  hs !! 0%nat = Some h0 -> hs !! i = Some hi -> hi <> h0 ->
  (forall j hj, (0 < j < i)%nat -> hs !! j = Some hj -> hj = h0) ->
  snd (construct_report reloads reloadFails hs)
  = Fatal (mismatch_format h0 hi (Z.of_nat i)).
Proof.
  intros Hlen Hi H0 Hhi Hne Hlow.
  destruct hs as [|a [|b [|c [|d [|]]]]]; try discriminate Hlen.
  injection H0 as ->.
  unfold construct_report, compare_hashCodes. simpl.
  destruct i as [|[|[|[|i]]]]; simpl in Hhi; try lia; try discriminate Hhi;
    injection Hhi as ->.
  - now rewrite decide_False by congruence.
  - rewrite (Hlow 1%nat b) by (reflexivity || lia).
    rewrite decide_True by reflexivity. simpl.
    now rewrite decide_False by congruence.
  - rewrite (Hlow 1%nat b), (Hlow 2%nat c) by (reflexivity || lia).
    rewrite !decide_True by reflexivity. simpl.
    now rewrite decide_False by congruence.
Qed.

(** C3, at a run the code can make: the engine answers "False" instead of
    "True" for the record in the pass with index 2. After the join the
    slots are [453489825; 453489825; 4219712010; 453489825] and the run
    ends in the fatal log of line 171, whose text names as the iteration
    the hash code 4219712010 of slot 2 and as its hash code the index 2. *)
Theorem mismatch_diagnostic_swaps_operands :
  exec evidence_yml evidence1 third_differs (start 1) = Some final_differs /\
  joined (main final_differs) = true /\
  hashCodes (rep final_differs) = [453489825; 453489825; 4219712010; 453489825] /\
  st final_differs
  = Fatal ("Hash codes do not match. Initial hash code is '453489825', "
           +:+ "but iteration '4219712010' has hash code '2'. This indicates "
           +:+ "not all Evidence Records have been processed correctly for "
           +:+ "each iteration.").
Proof. vm_compute. repeat split. Qed.

(** ** The claims on runs of the example *)

Lemma final1_reachable : Reachable evidence_yml evidence1 1 final1.
Proof. exists (all_true true). vm_compute. reflexivity. Qed.

Lemma final_empty_reachable :
  Reachable evidence_yml [] (CountEvidenceFromFiles []) final_empty.
Proof. exists sched_empty. vm_compute. reflexivity. Qed.

(** C1 as stated fails for a record without available properties: its
    task returns having made no fold, where the claim has one fold of the
    hash of the empty signature; slot 0 is still 0, and the fold claimed
    would have changed it. The task did increment [evidenceProcessed]. With
    two available properties the task makes two folds, of the hashes of the
    two values, and slot 0 is not the hash of their concatenation. *)
Lemma one_fold_per_record_fails :
  (exec evidence_yml evidence1 (sched_first no_properties 3) (start 1)
   = Some final_no_properties /\
   tasks final_no_properties !! 0%nat
   = Some (Task (ua "Mozilla/5.0") 0 (TReturned no_properties)) /\
   spec_signature no_properties (AvailableProperties no_properties)
   = Some EmptyString /\
   folds_of 0 (trace final_no_properties) = [] /\
   folds_of 0 (trace final_no_properties) <> [(0%nat, generateHash EmptyString)] /\
   hashCodes (rep final_no_properties) !! 0%nat = Some 0 /\
   Z.lxor 0 (generateHash EmptyString) <> 0 /\
   count_ev (EvAdd 0) (trace final_no_properties) = 1%nat) /\
  (exec evidence_yml evidence1 (sched_first two_properties 5) (start 1)
   = Some final_two_properties /\
   tasks final_two_properties !! 0%nat
   = Some (Task (ua "Mozilla/5.0") 0 (TReturned two_properties)) /\
   spec_signature two_properties (AvailableProperties two_properties)
   = Some "TrueAndroid" /\
   folds_of 0 (trace final_two_properties)
   = [(0%nat, generateHash "True"); (0%nat, generateHash "Android")] /\
   folds_of 0 (trace final_two_properties) <> [(0%nat, generateHash "TrueAndroid")] /\
   hashCodes (rep final_two_properties) !! 0%nat
   = Some (Z.lxor (generateHash "True") (generateHash "Android")) /\
   Z.lxor (generateHash "True") (generateHash "Android")
   <> Z.lxor 0 (generateHash "TrueAndroid")).
Proof. vm_compute. repeat split; discriminate. Qed.

Lemma task_folds_per_property_witness :
  Forall2 (folded 0 (is_mobile "True")) ["IsMobile"] (folds_of 0 (trace final1)) /\
  (AvailableProperties (is_mobile "True") = [] -> folds_of 0 (trace final1) = []) /\
  count_ev (EvAdd 0) (trace final1) = 1%nat /\
  hashed (hashCodes (rep final1)) (trace final1).
Proof.
  apply (task_folds_per_property evidence_yml evidence1 1 final1 0
           (Task (ua "Mozilla/5.0") 0 (TReturned (is_mobile "True")))
           (is_mobile "True")).
  - apply final1_reachable.
  - vm_compute. reflexivity.
  - reflexivity.
Defined.

(** C9 as stated fails on the error path: [ValuesString] fails after
    [engine.Process] has returned a handle, [log.Fatalln] ends the process,
    and the handle has not been released and never will be. *)
Lemma free_on_error_path_fails :
  exec evidence_yml evidence1 (sched_first broken_value 1) (start 1)
  = Some final_broken /\
  tasks final_broken !! 0%nat
  = Some (Task (ua "Mozilla/5.0") 0 (TLoop broken_value ["IsMobile"])) /\
  st final_broken = Fatal ("value unavailable" +:+ nl) /\
  count_ev (EvFree 0) (trace final_broken) = 0%nat /\
  count_ev (EvFree 0) (trace final_broken) <> 1%nat /\
  (forall l, step evidence_yml evidence1 l final_broken = None).
Proof. vm_compute. repeat split; discriminate. Qed.

Lemma free_once_on_return_witness :
  (forall results,
     TReturned (is_mobile "True") = TReturned results ->
     count_ev (EvFree 0) (trace final1) = 1%nat) /\
  ((forall results, TReturned (is_mobile "True") <> TReturned results) ->
     count_ev (EvFree 0) (trace final1) = 0%nat).
Proof.
  apply (free_once_on_return evidence_yml evidence1 1 final1 0
           (Task (ua "Mozilla/5.0") 0 (TReturned (is_mobile "True")))).
  - apply final1_reachable.
  - vm_compute. reflexivity.
Defined.

Lemma processed_after_join_witness :
  evidenceProcessed (rep final1) = Z.of_nat (length evidence1) * Z.of_nat fIterationCount /\
  key <$> tasks final1 = passes evidence1 fIterationCount /\
  (forall k t, tasks final1 !! k = Some t -> count_ev (EvAdd k) (trace final1) = 1%nat).
Proof.
  apply (processed_after_join evidence_yml evidence1 1 final1).
  - vm_compute. reflexivity.
  - apply final1_reachable.
  - reflexivity.
Defined.

Lemma processed_le_expected_witness :
  evidenceProcessed (rep final1) <= evidenceCount (rep final1) /\
  evidenceCount (rep final1) = Z.of_nat (length evidence1) * Z.of_nat fIterationCount /\
  evidenceCount (rep final1)
  = evidenceCount (rep (start (CountEvidenceFromFiles evidence1))).
Proof.
  apply (processed_le_expected evidence_yml evidence1 final1).
  - vm_compute. reflexivity.
  - apply final1_reachable.
Defined.

Lemma reload_attempt_witness :
  (evidenceProcessed (rep (start 1)) < evidenceCount (rep (start 1)) ->
   exists s',
     exec evidence_yml evidence1 [LMain false; LMain false] (start 1) = Some s' /\
     st s' = Running /\ main s' = MLoop /\
     reloads s' = reloads (start 1) /\
     reloadFails s' = int64 (reloadFails (start 1) + 1) /\
     trace s' = trace (start 1) ++ [EvChtimes false] /\
     rep s' = rep (start 1) /\ wg s' = wg (start 1) /\ disp s' = disp (start 1) /\
     tasks s' = tasks (start 1) /\ logs s' = logs (start 1)) /\
  (~ evidenceProcessed (rep (start 1)) < evidenceCount (rep (start 1)) ->
   step evidence_yml evidence1 (LMain false) (start 1)
   = Some (with_main MWait (start 1))).
Proof.
  apply (reload_attempt evidence_yml evidence1 false (start 1)); reflexivity.
Defined.

Lemma reload_outcomes_irrelevant_witness :
  exists s2,
    exec evidence_yml evidence1 (all_true false) (start 1) = Some s2 /\
    hashCodes (rep s2) = hashCodes (rep final1) /\
    evidenceProcessed (rep s2) = evidenceProcessed (rep final1) /\
    evidenceCount (rep s2) = evidenceCount (rep final1) /\
    tasks s2 = tasks final1 /\ wg s2 = wg final1 /\ disp s2 = disp final1 /\
    main s2 = main final1 /\ st s2 = st final1.
Proof.
  apply (reload_outcomes_irrelevant evidence_yml evidence1 1
           (all_true true) (all_true false) final1).
  - unfold all_true, sched1, run_task. simpl. repeat constructor.
  - vm_compute. reflexivity.
Defined.

Lemma empty_file_run_witness :
  evidenceCount (rep final_empty) = 0 /\
  main final_empty = MDone complete /\
  st final_empty = Running /\
  reloads final_empty = 0 /\ reloadFails final_empty = 0 /\
  hashCodes (rep final_empty) = replicate fIterationCount 0 /\
  logs final_empty = report0.
Proof.
  pose proof (empty_file_run evidence_yml final_empty) as H.
  destruct (H final_empty_reachable) as (Hc & _ & _ & Hre & Hrf & _ & Hh & _ & Hd).
  destruct (Hd complete eq_refl) as [_ Hl].
  repeat split; assumption || reflexivity.
Defined.

(** * Further properties of the harness *)

(** ** [generateHash] *)

Lemma lxor_range (n a b : Z) :
  0 <= n -> 0 <= a < 2 ^ n -> 0 <= b < 2 ^ n -> 0 <= Z.lxor a b < 2 ^ n.
Proof.
  intros Hn [Ha Han] [Hb Hbn].
  assert (H0 : 0 <= Z.lxor a b) by (apply Z.lxor_nonneg; tauto).
  split; [assumption|].
  destruct (Z.eq_dec (Z.lxor a b) 0) as [->|Hne].
  - apply Z.pow_pos_nonneg; lia.
  - assert (Hpos : 0 < n).
    { destruct (Z.eq_dec n 0) as [->|]; [|lia]. exfalso. apply Hne.
      change (2 ^ 0) with 1 in *. now replace a with 0 by lia; replace b with 0 by lia. }
    apply Z.log2_lt_pow2; [lia|].
    eapply Z.le_lt_trans; [apply Z.log2_lxor; assumption|].
    apply Z.max_lub_lt.
    + destruct (Z.eq_dec a 0) as [->|]; [simpl; lia|].
      apply Z.log2_lt_pow2; lia.
    + destruct (Z.eq_dec b 0) as [->|]; [simpl; lia|].
      apply Z.log2_lt_pow2; lia.
Qed.

Lemma byte_of_range (c : ascii) : 0 <= byte_of c < 2 ^ 32.
Proof.
  unfold byte_of. pose proof (N_ascii_bounded c) as Hc.
  change (2 ^ 32) with 4294967296. lia.
Qed.

Lemma fnv_write_range (data : string) (h : Z) :
  0 <= h < 2 ^ 32 -> 0 <= fnv_write h data < 2 ^ 32.
Proof.
  revert h. induction data as [|c data IH]; intros h Hh; simpl; [assumption|].
  apply IH. apply lxor_range; [lia| |apply byte_of_range].
  unfold uint32. apply Z.mod_pos_bound. reflexivity.
Qed.

Lemma offset32_range : 0 <= offset32 < 2 ^ 32.
Proof. unfold offset32. split; reflexivity || discriminate. Qed.

(** X1: the hash code of every string is a [uint32]: the multiplications by
    the FNV prime wrap and the bytes folded in never leave the 32 bits. *)
Theorem generateHash_uint32 (str : string) : 0 <= generateHash str < 2 ^ 32.
Proof. unfold generateHash. apply fnv_write_range. exact offset32_range. Qed.

Lemma int64_succ (z : Z) : int64 (int64 z + 1) = int64 (z + 1).
Proof.
  unfold int64.
  replace ((z + 2 ^ 63) mod 2 ^ 64 - 2 ^ 63 + 1 + 2 ^ 63)
    with ((z + 2 ^ 63) mod 2 ^ 64 + 1) by lia.
  rewrite Zplus_mod_idemp_l. f_equal. f_equal. lia.
Qed.


Lemma passes_lookup (file : list Doc) (n k i : nat) (doc : Doc) :
  passes file n !! k = Some (i, doc) ->
  (i < n)%nat /\ exists j, k = (i * length file + j)%nat /\ file !! j = Some doc.
Proof.
  induction n as [|n IH]; [discriminate|].
  rewrite passes_S. intros H. apply lookup_app_Some in H as [H|[Hlen H]].
  - destruct (IH H) as (Hi & j & Hk & Hj). split; [lia|]. eauto.
  - rewrite passes_length in *. rewrite list_lookup_fmap in H.
    destruct (file !! (k - n * length file)%nat) as [d|] eqn:Hd; [|discriminate].
    injection H as <- <-. split; [lia|].
    exists (k - n * length file)%nat. split; [lia|assumption].
Qed.

Section RunExtras.

Variable evidenceFilePath : string.
Variable file : list Doc.
Variable count : Z.

Local Abbreviation step := (step evidenceFilePath file).
Local Abbreviation exec := (exec evidenceFilePath file).
Local Abbreviation start := (start count).
Local Abbreviation Reachable := (Reachable evidenceFilePath file count).

(** ** The slots *)

Lemma slots_uint32_step (l : label) (s s' : state) :
  slots_uint32 s -> step l s = Some s' -> slots_uint32 s'.
Proof.
  unfold slots_uint32. destruct s; simpl. intros Hs H. step_cases H.
  all: try assumption.
  unfold updateHashCode in *.
  destruct (hashCodes rep0 !! t_iteration0) as [h|] eqn:Hit; [|discriminate].
  match goal with Hu : Some _ = Some _ |- _ => injection Hu as <- end.
  simpl. apply Forall_insert; [assumption|].
  apply lxor_range; [lia| |apply fnv_write_range, offset32_range].
  eapply (Forall_lookup_1 _ _ _ _ Hs); eassumption.
Qed.

(** X2: at every point of a run every slot of [hashCodes] is a [uint32],
    and there are [fIterationCount] of them. *)
Theorem hashCodes_uint32 (s : state) :
  Reachable s ->
  length (hashCodes (rep s)) = fIterationCount /\
  Forall (fun h => 0 <= h < 2 ^ 32) (hashCodes (rep s)).
Proof.
  intros Hr. split.
  - apply (ranged_reachable _ _ _ s Hr).
  - revert s Hr. apply reachable_invariant; [|apply slots_uint32_step].
    unfold slots_uint32. simpl. repeat constructor; lia.
Qed.

(** ** No panic *)

(** X3: a run never panics: no index into [hashCodes] is out of range, in
    [updateHashCode] or in the report, and [wg.Done()] never makes the wait
    group counter negative. A task in its range loop whose value is
    available can always fold it. *)
Theorem run_never_panics (s : state) :
  Reachable s ->
  (forall msg, st s <> Panic msg) /\
  (forall k t value, tasks s !! k = Some t ->
     is_Some (updateHashCode (rep s) (generateHash value) (t_iteration t))) /\
  (forall k t results, tasks s !! k = Some t -> t_pc t = TDeferDone results ->
     (0 < wg s)%nat).
Proof.
  intros Hr. split; [|split].
  - intros msg. now apply (no_panic evidenceFilePath file count).
  - intros k t value Hk.
    destruct (ranged_reachable _ _ _ s Hr) as (Hlen & Hts & _).
    eapply Forall_lookup_1 in Hts; [|exact Hk]. simpl in Hts.
    destruct (lookup_lt_is_Some_2 (hashCodes (rep s)) (t_iteration t)) as [h Hh];
      [lia|].
    rewrite (updateHashCode_Some _ _ _ h Hh). eauto.
  - intros k t results Hk Hpc.
    destruct (counting_reachable _ _ _ s Hr) as (Hwg & _).
    destruct (Nat.eq_dec (sum_list_with pending (tasks s)) 0%nat) as [H0|]; [|lia].
    pose proof (sum_list_zero pending _ _ _ H0 Hk) as Hp.
    destruct t as [e i pc]. simpl in *. subst pc. discriminate.
Qed.

(** ** Which record a task works on *)

(** X4: the tasks are started in the order of the file, pass after pass:
    the task with index [k] belongs to pass [k / n] and works on record
    [k mod n] of the [n] records of the file. *)
Theorem task_record (s : state) (k : nat) (t : task) :
  Reachable s -> tasks s !! k = Some t ->
  (t_iteration t < fIterationCount)%nat /\
  exists j, k = (t_iteration t * length file + j)%nat /\
            file !! j = Some (t_evidence t).
Proof.
  intros Hr Hk.
  destruct (counting_reachable _ _ _ s Hr) as (_ & _ & Hd & _).
  assert (Hkey : (key <$> tasks s) !! k = Some (t_iteration t, t_evidence t))
    by (rewrite list_lookup_fmap, Hk; reflexivity).
  assert (Hpre : exists rest, passes file fIterationCount = (key <$> tasks s) ++ rest).
  { destruct (disp s) as [i|i docs|n]; simpl in Hd.
    - destruct Hd as [Hi ->]. clear Hkey.
      induction Hi as [|m Hi [rest IH]]; [exists []; now rewrite app_nil_r|].
      exists (rest ++ map (pair m) file). now rewrite passes_S, IH, app_assoc.
    - destruct Hd as (Hi & done & Hf & ->). clear Hkey.
      assert (HS : exists rest, passes file fIterationCount = passes file (S i) ++ rest).
      { clear Hf. induction Hi as [|m Hi [rest IH]]; [exists []; now rewrite app_nil_r|].
        exists (rest ++ map (pair m) file). now rewrite (passes_S file m), IH, app_assoc. }
      destruct HS as [rest ->]. exists (map (pair i) docs ++ rest).
      rewrite passes_S.
      replace (map (pair i) file) with (map (pair i) done ++ map (pair i) docs)
        by (rewrite <- map_app; now f_equal).
      now rewrite <- !app_assoc.
    - destruct Hd as [_ ->]. exists []. now rewrite app_nil_r. }
  destruct Hpre as [rest Hpre].
  apply (passes_lookup file fIterationCount k).
  rewrite Hpre. now apply lookup_app_l_Some.
Qed.

(** ** The reload counters *)

Lemma attempts_step (l : label) (s s' : state) :
  attempts s -> step l s = Some s' -> attempts s'.
Proof.
  unfold attempts. destruct s; simpl. intros [Hok Hfail] H. step_cases H.
  all: rewrite ?count_ev_snoc; simpl; rewrite ?Nat.add_0_r.
  all: try (split; assumption).
  all: subst; rewrite int64_succ; split; try reflexivity; f_equal; lia.
Qed.

(** X5: the two counters of the reload loop are the numbers of successful
    and of failed calls of [os.Chtimes] made so far (as Go [int]s). *)
Theorem reload_counters (s : state) :
  Reachable s ->
  reloads s = int64 (Z.of_nat (count_ev (EvChtimes true) (trace s))) /\
  reloadFails s = int64 (Z.of_nat (count_ev (EvChtimes false) (trace s))) /\
  (Z.of_nat (length (trace s)) < 2 ^ 63 ->
   reloads s = Z.of_nat (count_ev (EvChtimes true) (trace s)) /\
   reloadFails s = Z.of_nat (count_ev (EvChtimes false) (trace s))).
Proof.
  intros Hr.
  assert (Ha : attempts s).
  { revert s Hr. apply reachable_invariant; [|apply attempts_step].
    split; reflexivity. }
  destruct Ha as [Hok Hfail]. repeat split; try assumption.
  - rewrite Hok. apply int64_small.
    pose proof (length_filter (eq (EvChtimes true)) (trace s)). unfold count_ev. lia.
  - rewrite Hfail. apply int64_small.
    pose proof (length_filter (eq (EvChtimes false)) (trace s)). unfold count_ev. lia.
Qed.

(** ** Progress *)


(** ** The join is the barrier *)

(** X7: once [wg.Wait()] has returned nothing writes to the report any
    more: whatever goroutine runs next, [hashCodes], [evidenceProcessed]
    and [evidenceCount] keep their values, so the report of lines 164-178
    reads final values. *)
Theorem report_final_after_join (l : label) (s s' : state) :
  Reachable s -> joined (main s) = true -> step l s = Some s' ->
  rep s' = rep s /\ joined (main s') = true /\ wg s' = 0%nat /\
  length (tasks s') = length (tasks s).
Proof.
  intros Hr Hj H.
  destruct (counting_reachable _ _ _ s Hr) as (Hwg & _ & _ & Hjw & _).
  specialize (Hjw Hj). rewrite Hjw in Hwg.
  destruct s as [rep0 wg0 disp0 tasks0 main0 re rf lg tr st0]; simpl in *.
  step_cases H.
  all: try discriminate.
  all: try (subst; rewrite ?length_insert; now repeat split).
  all: exfalso.
  all: match goal with
       | Hk : _ !! _ = Some ?t |- _ =>
           assert (Hp : pending t = 0%nat)
             by (eapply (sum_list_zero pending); [|exact Hk]; lia);
           discriminate Hp
       end.
Qed.

(** ** What the slots hold *)

Ltac xor_bits :=
  apply Z.bits_inj'; intros ? _; rewrite ?Z.lxor_spec, ?Z.bits_0;
  repeat match goal with
         | |- context [Z.testbit ?a ?n] => destruct (Z.testbit a n)
         end; reflexivity.

Lemma xor_all_app (a b : list Z) :
  xor_all (a ++ b) = Z.lxor (xor_all a) (xor_all b).
Proof.
  induction a as [|x a IH]; simpl; [reflexivity|].
  fold (xor_all (a ++ b)). fold (xor_all a). rewrite IH. xor_bits.
Qed.

Lemma pass_codes_middle (l1 l2 : list task) (i : nat) (t t' : task) :
  t_iteration t' = t_iteration t ->
  xor_all (pass_codes i (l1 ++ t' :: l2))
  = if decide (t_iteration t = i)
    then Z.lxor (xor_all (pass_codes i (l1 ++ t :: l2)))
           (Z.lxor (folded_code t) (folded_code t'))
    else xor_all (pass_codes i (l1 ++ t :: l2)).
Proof.
  intros Hit. unfold pass_codes. rewrite !omap_app. simpl.
  destruct (decide (t_iteration t = i)) as [Hi|Hi].
  - assert (Ht : pass_code i t = Some (folded_code t))
      by (unfold pass_code; now rewrite decide_True).
    assert (Ht' : pass_code i t' = Some (folded_code t'))
      by (unfold pass_code; now rewrite decide_True by congruence).
    rewrite Ht, Ht', !xor_all_app. simpl.
    fold (xor_all (omap (pass_code i) l2)).
    xor_bits.
  - assert (Ht : pass_code i t = None)
      by (unfold pass_code; now rewrite decide_False).
    assert (Ht' : pass_code i t' = None)
      by (unfold pass_code; now rewrite decide_False by congruence).
    now rewrite Ht, Ht'.
Qed.

Lemma pass_codes_update (l : list task) (k i : nat) (t t' : task) :
  l !! k = Some t -> t_iteration t' = t_iteration t ->
  xor_all (pass_codes i (<[k := t']> l))
  = if decide (t_iteration t = i)
    then Z.lxor (xor_all (pass_codes i l)) (Z.lxor (folded_code t) (folded_code t'))
    else xor_all (pass_codes i l).
Proof.
  intros Hk Hit.
  rewrite insert_take_drop by (eapply lookup_lt_Some; eauto).
  rewrite (pass_codes_middle _ _ i t t' Hit).
  now rewrite (take_drop_middle l k t Hk).
Qed.

Lemma pass_codes_same (l : list task) (k i : nat) (t t' : task) :
  l !! k = Some t -> t_iteration t' = t_iteration t ->
  folded_code t' = folded_code t ->
  xor_all (pass_codes i (<[k := t']> l)) = xor_all (pass_codes i l).
Proof.
  intros Hk Hit Hc. rewrite (pass_codes_update l k i t t' Hk Hit), Hc.
  destruct (decide _); [|reflexivity]. xor_bits.
Qed.

Lemma pass_codes_spawn (l : list task) (i it : nat) (doc : Doc) :
  xor_all (pass_codes i (l ++ [Task doc it TProcess])) = xor_all (pass_codes i l).
Proof.
  unfold pass_codes. rewrite omap_app, xor_all_app. simpl. unfold pass_code. simpl.
  destruct (decide (it = i)); simpl; xor_bits.
Qed.

Lemma folded_code_next (results : Results) (done rest : list string)
    (property value : string) :
  AvailableProperties results = done ++ property :: rest ->
  ValuesString results property "," = Ok value ->
  xor_all (value_code results
             <$> take (length (AvailableProperties results) - length rest)
                   (AvailableProperties results))
  = Z.lxor
      (xor_all (value_code results
                  <$> take (length (AvailableProperties results)
                            - length (property :: rest))
                        (AvailableProperties results)))
      (generateHash value).
Proof.
  intros -> Hv. rewrite length_app. simpl.
  replace (length done + S (length rest) - length rest)%nat
    with (length (done ++ [property])) by (rewrite length_app; simpl; lia).
  replace (length done + S (length rest) - S (length rest))%nat
    with (length done) by lia.
  rewrite (take_app_length done).
  change (done ++ property :: rest) with (done ++ [property] ++ rest).
  rewrite app_assoc, (take_app_length (done ++ [property])).
  rewrite fmap_app, xor_all_app. simpl. unfold value_code at 2. rewrite Hv.
  xor_bits.
Qed.

Lemma coded_step (l : label) (s s' : state) :
  coded s -> step l s = Some s' -> coded s'.
Proof.
  unfold coded. destruct s; simpl. intros [Hsuf Hh] H. step_cases H.
  all: try (split; assumption).
  all: try match goal with
       | Hk : ?ts !! ?k = Some ?t |- context [<[?k := ?t']> ?ts] =>
           pose proof (fun i => pass_codes_update ts k i t t' Hk eq_refl) as Hupd;
           pose proof (fun i => pass_codes_same ts k i t t' Hk eq_refl) as Hsame;
           pose proof (Forall_lookup_1 _ _ _ _ Hsuf Hk) as Hdone;
           simpl in Hupd, Hsame, Hdone
       end.
  - split; [|now rewrite !pass_codes_spawn].
    apply Forall_app. split; [assumption|]. now apply Forall_singleton.
  - split.
    + apply Forall_insert; [assumption|]. simpl. now exists [].
    + rewrite !Hsame; [assumption|unfold folded_code; simpl..];
        now rewrite Nat.sub_diag.
  - split.
    + apply Forall_insert; [assumption|]. exact I.
    + destruct Hdone as [done Hdone].
      rewrite !Hsame; [assumption|unfold folded_code, results_code; simpl..];
        now rewrite Nat.sub_0_r, firstn_all.
  - destruct Hdone as [done Hdone]. split.
    + apply Forall_insert; [assumption|]. simpl. exists (done ++ [s]).
      now rewrite <- app_assoc.
    + unfold folded_code in Hupd. simpl in Hupd.
      match goal with
      | Hv : ValuesString _ _ _ = Ok _ |- _ =>
          rewrite (folded_code_next _ _ _ _ _ Hdone Hv) in Hupd
      end.
      unfold updateHashCode in *. rewrite Hh in *.
      destruct t_iteration0 as [|[|[|[|]]]]; simpl in *; try discriminate;
        match goal with Hu : Some _ = Some _ |- _ => injection Hu as <- end;
        simpl; rewrite !Hupd; simpl; repeat f_equal; xor_bits.
  - split; [apply Forall_insert; [assumption|exact I]|].
    now rewrite !Hsame.
  - split; [apply Forall_insert; [assumption|exact I]|].
    now rewrite !Hsame.
Qed.

Lemma coded_reachable (s : state) : Reachable s -> coded s.
Proof.
  apply reachable_invariant; [|apply coded_step].
  split; [constructor|reflexivity].
Qed.

(** X8: at every point of a run slot [i] of [hashCodes] is the xor, over
    the tasks of pass [i], of the codes each of them has folded so far; once
    [wg.Wait()] has returned, each task contributes the xor of the hashes of
    the values of all the properties its results handle reports. *)
Theorem slot_is_xor_of_pass (s : state) (i : nat) :
  Reachable s -> (i < fIterationCount)%nat ->
  hashCodes (rep s) !! i = Some (xor_all (pass_codes i (tasks s))) /\
  (joined (main s) = true ->
   forall k t, tasks s !! k = Some t ->
     exists results, results_of t = Some results /\
                     folded_code t = results_code results).
Proof.
  intros Hr Hi. split.
  - destruct (coded_reachable s Hr) as [_ ->].
    rewrite list_lookup_fmap, (lookup_seq_lt 0 fIterationCount i Hi). reflexivity.
  - intros Hj k t Hk.
    destruct (counting_reachable _ _ _ s Hr) as (Hwg & _ & _ & Hjw & _).
    rewrite (Hjw Hj) in Hwg.
    assert (Hp : pending t = 0%nat)
      by (eapply (sum_list_zero pending); [|exact Hk]; lia).
    destruct t as [e it pc]. unfold results_of, folded_code. simpl in *.
    destruct pc; try discriminate; eauto.
Qed.

(** X9: if, when the report is constructed, the codes of the tasks of
    every pass are those of pass 0 in some order (the engine gave the same
    answers in every pass), the run completes: all slots are equal, no
    mismatch is logged, and the report lists the common hash code for every
    iteration. *)
Theorem equal_passes_complete (ok : bool) (s : state) :
  Reachable s -> st s = Running -> main s = MReport ->
  (forall i, (i < fIterationCount)%nat ->
     pass_codes i (tasks s) ≡ₚ pass_codes 0 (tasks s)) ->
  exists s',
    step (LMain ok) s = Some s' /\
    st s' = Running /\ main s' = MDone complete /\
    hashCodes (rep s')
    = replicate fIterationCount (xor_all (pass_codes 0 (tasks s))) /\
    logs s'
    = logs s ++ [reloaded_line (reloads s); failed_line (reloadFails s)]
        ++ ((fun i => hashcode_line (xor_all (pass_codes 0 (tasks s))) i)
              <$> seq 0 fIterationCount).
Proof.
  intros Hr Hst Hm Hperm.
  destruct (coded_reachable s Hr) as [_ Hh].
  assert (Hrep : hashCodes (rep s)
                 = replicate fIterationCount (xor_all (pass_codes 0 (tasks s)))).
  { rewrite Hh. simpl.
    rewrite (xor_all_permutation _ _ (Hperm 1%nat ltac:(unfold fIterationCount; lia))).
    rewrite (xor_all_permutation _ _ (Hperm 2%nat ltac:(unfold fIterationCount; lia))).
    rewrite (xor_all_permutation _ _ (Hperm 3%nat ltac:(unfold fIterationCount; lia))).
    reflexivity. }
  destruct s as [rep0 wg0 disp0 tasks0 main0 re rf lg tr st0]; simpl in *.
  subst st0 main0.
  pose proof (report_all_equal re rf (xor_all (pass_codes 0 tasks0))) as Hrpt.
  unfold construct_report in Hrpt. simpl in Hrpt.
  injection Hrpt as Hfst Hsnd.
  unfold_step; simpl. rewrite Hrep. simpl. rewrite Hsnd, Hfst.
  eexists. split; [reflexivity|]. simpl. now repeat split.
Qed.

End RunExtras.

(** ** The verdict of the report *)

(** X10: the loop of lines 167-178 completes exactly when all four hash
    codes are equal; otherwise it ends in the fatal log of line 171, never in
    an index out of range. *)
Theorem report_success_iff (reloads reloadFails : Z) (hs : list Z) :
  length hs = fIterationCount ->
  (snd (construct_report reloads reloadFails hs) = Running
   <-> exists h, hs = replicate fIterationCount h) /\
  (snd (construct_report reloads reloadFails hs) <> Running ->
   exists msg, snd (construct_report reloads reloadFails hs) = Fatal msg).
Proof.
  intros Hlen. destruct hs as [|a [|b [|c [|d [|]]]]]; try discriminate Hlen.
  unfold construct_report, compare_hashCodes. simpl.
  destruct (decide (a = b)) as [<-|Hb]; simpl;
    [destruct (decide (a = c)) as [<-|Hc]; simpl;
       [destruct (decide (a = d)) as [<-|Hd]; simpl|]|].
  all: split; [split|].
  all: try (intros H; discriminate H).
  all: try (intros [h [= -> -> -> ->]]; congruence).
  all: try (intros _; eexists; reflexivity).
  - intros H. now destruct H.
  - intros [h Heq]. injection Heq as ? ? ? ?. congruence.
  - intros [h Heq]. injection Heq as ? ? ? ?. congruence.
Qed.

Lemma report_success_iff_witness :
  (snd (construct_report 2 1 [7; 7; 7; 7]) = Running
   <-> exists h, [7; 7; 7; 7] = replicate fIterationCount h) /\
  (snd (construct_report 2 1 [7; 7; 7; 7]) <> Running ->
   exists msg, snd (construct_report 2 1 [7; 7; 7; 7]) = Fatal msg).
Proof. apply (report_success_iff 2 1 [7; 7; 7; 7]). reflexivity. Defined.

(** ** The further properties on runs of the example *)

Lemma before_report_reachable : Reachable evidence_yml evidence1 1 before_report.
Proof. exists (removelast (all_true true)). vm_compute. reflexivity. Qed.

Lemma hashCodes_uint32_witness :
  length (hashCodes (rep final1)) = fIterationCount /\
  Forall (fun h => 0 <= h < 2 ^ 32) (hashCodes (rep final1)).
Proof.
  apply (hashCodes_uint32 evidence_yml evidence1 1 final1).
  apply final1_reachable.
Defined.

Lemma run_never_panics_witness :
  (forall msg, st final1 <> Panic msg) /\
  (forall k t value, tasks final1 !! k = Some t ->
     is_Some (updateHashCode (rep final1) (generateHash value) (t_iteration t))) /\
  (forall k t results, tasks final1 !! k = Some t -> t_pc t = TDeferDone results ->
     (0 < wg final1)%nat).
Proof.
  apply (run_never_panics evidence_yml evidence1 1 final1).
  apply final1_reachable.
Defined.

Lemma task_record_witness :
  (2 < fIterationCount)%nat /\
  exists j, 2%nat = (2 * length evidence1 + j)%nat /\
            evidence1 !! j = Some (ua "Mozilla/5.0").
Proof.
  apply (task_record evidence_yml evidence1 1 final1 2
           (Task (ua "Mozilla/5.0") 2 (TReturned (is_mobile "True")))).
  - apply final1_reachable.
  - vm_compute. reflexivity.
Defined.

Lemma reload_counters_witness :
  reloads final1 = int64 (Z.of_nat (count_ev (EvChtimes true) (trace final1))) /\
  reloadFails final1 = int64 (Z.of_nat (count_ev (EvChtimes false) (trace final1))) /\
  (Z.of_nat (length (trace final1)) < 2 ^ 63 ->
   reloads final1 = Z.of_nat (count_ev (EvChtimes true) (trace final1)) /\
   reloadFails final1 = Z.of_nat (count_ev (EvChtimes false) (trace final1))).
Proof.
  apply (reload_counters evidence_yml evidence1 1 final1).
  apply final1_reachable.
Defined.


Lemma report_final_after_join_witness :
  rep final1 = rep before_report /\ joined (main final1) = true /\
  wg final1 = 0%nat /\ length (tasks final1) = length (tasks before_report).
Proof.
  apply (report_final_after_join evidence_yml evidence1 1 (LMain true)
           before_report final1).
  - apply before_report_reachable.
  - reflexivity.
  - vm_compute. reflexivity.
Defined.

Lemma slot_is_xor_of_pass_witness :
  hashCodes (rep final1) !! 2%nat = Some (xor_all (pass_codes 2 (tasks final1))) /\
  (joined (main final1) = true ->
   forall k t, tasks final1 !! k = Some t ->
     exists results, results_of t = Some results /\
                     folded_code t = results_code results).
Proof.
  apply (slot_is_xor_of_pass evidence_yml evidence1 1 final1 2).
  - apply final1_reachable.
  - unfold fIterationCount. lia.
Defined.

Lemma equal_passes_complete_witness :
  exists s',
    step evidence_yml evidence1 (LMain true) before_report = Some s' /\
    st s' = Running /\ main s' = MDone complete /\
    hashCodes (rep s')
    = replicate fIterationCount (xor_all (pass_codes 0 (tasks before_report))) /\
    logs s'
    = logs before_report
        ++ [reloaded_line (reloads before_report);
            failed_line (reloadFails before_report)]
        ++ ((fun i => hashcode_line (xor_all (pass_codes 0 (tasks before_report))) i)
              <$> seq 0 fIterationCount).
Proof.
  apply (equal_passes_complete evidence_yml evidence1 1 true before_report).
  - apply before_report_reachable.
  - reflexivity.
  - reflexivity.
  - intros [|[|[|[|i]]]] Hi; try (vm_compute; reflexivity).
    unfold fIterationCount in Hi. lia.
Defined.

(** * Properties of the performance example *)

Lemma sum_with_insert {A} (f : A -> nat) (l : list A) (k : nat) (t t' : A) :
  l !! k = Some t ->
  (sum_list_with f (<[k := t']> l) + f t = sum_list_with f l + f t')%nat.
Proof.
  revert k. induction l as [|a l IH]; intros [|k] H; simpl in *; try discriminate.
  - injection H as ->. clear IH. lia.
  - specialize (IH _ H). lia.
Qed.

Lemma sum_with_zero {A} (f : A -> nat) (l : list A) (k : nat) (t : A) :
  sum_list_with f l = 0%nat -> l !! k = Some t -> f t = 0%nat.
Proof.
  revert k. induction l as [|a l IH]; intros [|k] Hs H; simpl in *; try discriminate.
  - injection H as ->. clear IH. lia.
  - apply (IH k); [clear IH; lia|assumption].
Qed.

Lemma sum_with_all {A} (f g : A -> nat) (l : list A) :
  (forall t, g t = 0 -> f t = 1)%nat -> sum_list_with g l = 0%nat ->
  sum_list_with f l = length l.
Proof.
  intros Hf. induction l as [|a l IH]; simpl; [reflexivity|].
  intros Hs. apply Nat.eq_add_0 in Hs as [Ha Hl].
  rewrite (IH Hl), (Hf _ Ha). reflexivity.
Qed.

Lemma sum_with_le {A} (f g : A -> nat) (l : list A) :
  (forall t, f t <= g t)%nat -> (sum_list_with f l <= sum_list_with g l)%nat.
Proof.
  intros Hf. induction l as [|a l IH]; simpl; [lia|]. specialize (Hf a). lia.
Qed.

Lemma sum_with_le_length {A} (f : A -> nat) (l : list A) :
  (forall t, f t <= 1)%nat -> (sum_list_with f l <= length l)%nat.
Proof.
  intros Hf. induction l as [|a l IH]; simpl; [lia|]. specialize (Hf a). lia.
Qed.

Lemma uint64_succ_Z (n : nat) :
  uint64 (uint64 (Z.of_nat n) + 1) = uint64 (Z.of_nat (S n)).
Proof.
  unfold uint64. rewrite Nat2Z.inj_succ. unfold Z.succ.
  now rewrite Zplus_mod_idemp_l.
Qed.

Lemma int64_range (z : Z) : - 2 ^ 63 <= int64 z < 2 ^ 63.
Proof.
  unfold int64. pose proof (Z.mod_pos_bound (z + 2 ^ 63) (2 ^ 64) eq_refl). lia.
Qed.

Module PerfFacts.
Import Perf.

Ltac perf_cases H :=
  unfold step, step_main, step_task in H; simpl in H;
  repeat
    (first
       [ match goal with t : task |- _ => destruct t; simpl in H end
       | match type of H with
         | context [match ?x with _ => _ end] => destruct x eqn:?
         end ];
     try discriminate H);
  injection H as <-; simpl in *.

Example final_state :
  exec two_records 2 sched start
  = Some final /\ main final = RDone /\ st final = Running /\
  rep final = Report 4 2 4 7.
Proof. vm_compute. repeat split. Qed.

Section Run.

Variable evidenceSlice : list Doc.
Variable Iterations : Z.

Local Abbreviation step := (step evidenceSlice Iterations).
Local Abbreviation exec := (exec evidenceSlice Iterations).
Local Abbreviation Reachable := (Reachable evidenceSlice Iterations).
Local Abbreviation counting := (counting evidenceSlice Iterations).

Lemma perf_invariant (P : state -> Prop) :
  P start ->
  (forall l s s', P s -> step l s = Some s' -> P s') ->
  forall s, Reachable s -> P s.
Proof.
  intros H0 Hstep s [ls Hls]. revert Hls. generalize start at 1 as s0, H0.
  induction ls as [|l ls IH]; intros s0 Hs0 H; simpl in H.
  - now injection H as <-.
  - destruct (step l s0) as [s1|] eqn:H1; [|discriminate]. eauto.
Qed.

Lemma perf_counting_step (l : label) (s s' : state) :
  counting s -> step l s = Some s' -> counting s'.
Proof.
  unfold Perf.counting. destruct s as [r w m ts x]; simpl.
  intros (Hwg & Hc & Hp & Hm & Hd & Hj) H. perf_cases H.
  all: repeat match goal with
       | H : _ /\ _ |- _ => destruct H
       | H : exists _, _ |- _ => destruct H
       end.
  all: try match goal with
       | H : ?l !! ?k = Some ?t |- context [<[?k := ?t']> ?l] =>
           pose proof (sum_with_insert pending l k t t' H);
           pose proof (sum_with_insert started l k t t' H);
           pose proof (sum_with_insert mobile l k t t' H)
       end.
  all: rewrite ?length_insert, ?length_app, ?sum_list_with_app.
  all: simpl in *.
  all: try match goal with
       | Hs : is_True _ = _ |- _ => rewrite Hs in *
       end.
  all: pose proof (int64_range Iterations) as HN.
  all: repeat split; try solve [assumption | lia | discriminate | congruence | eauto].
  all: try solve [intros Hjn; specialize (Hj Hjn); lia].
  all: try match goal with
       | Hs : (sum_list_with ?f ?l' + ?a = ?x + ?b)%nat
         |- context [sum_list_with ?f ?l'] =>
           first [ replace (sum_list_with f l') with x by lia
                 | replace (sum_list_with f l') with (S x) by lia ]
       end.
  all: try solve [congruence | rewrite <- uint64_succ_Z; congruence].
  all: rewrite ?Nat.add_0_r; try assumption.
  all: try (assert (Hi1 : int64 (i + 1) = i + 1) by (apply int64_small; lia);
            rewrite Hi1).
  all: try lia.
  - exists []. simpl. split; [reflexivity|lia].
  - unfold rounds. replace (Z.to_nat (int64 Iterations)) with (Z.to_nat i) by lia.
    assumption.
  - match goal with
    | Hf : evidenceSlice = ?done ++ [] |- _ =>
        rewrite app_nil_r in Hf;
        assert (Hl : length evidenceSlice = length done) by (now rewrite Hf at 1)
    end.
    replace (Z.to_nat (i + 1)) with (S (Z.to_nat i)) by lia. lia.
  - rewrite Hc, Nat.add_1_r. apply uint64_succ_Z.
  - match goal with
    | Hf : evidenceSlice = ?done ++ ?doc :: _ |- _ =>
        exists (done ++ [doc]); split;
        [ now rewrite <- app_assoc | rewrite length_app; simpl; lia ]
    end.
Qed.

Lemma perf_counting (s : state) : Reachable s -> counting s.
Proof.
  apply perf_invariant; [|apply perf_counting_step].
  unfold Perf.counting. simpl. repeat split; try reflexivity; try lia;
    try discriminate.
Qed.

(** X11: when [run] compares the two counters, after [wg.Wait()] has
    returned, they are equal: both are the number of tasks started, the
    passes [performDetections] made times the number of evidence records.
    [run] therefore never logs that not all evidence records have been
    processed, and goes on to print the report. *)
Theorem counters_agree_after_wait (elapsed : Z) (s : state) :
  Reachable s -> st s = Running -> main s = RCheck ->
  evidenceCount (rep s) = evidenceProcessed (rep s) /\
  evidenceCount (rep s)
  = uint64 (Z.of_nat (rounds Iterations * length evidenceSlice)) /\
  step (LMain elapsed) s = Some (with_main RDone s).
Proof.
  intros Hr Hst Hm.
  destruct (perf_counting s Hr) as (Hwg & Hc & Hp & _ & Hd & Hj).
  rewrite Hm in Hd, Hj. simpl in Hd. specialize (Hj eq_refl). rewrite Hj in Hwg.
  assert (Hall : sum_list_with started (tasks s) = length (tasks s)).
  { apply (sum_with_all started pending); [|now symmetry].
    intros [e pc]; simpl. destruct pc; simpl; congruence. }
  assert (Heq : evidenceCount (rep s) = evidenceProcessed (rep s))
    by (rewrite Hc, Hp, Hall; reflexivity).
  repeat split.
  - assumption.
  - now rewrite Hc, Hd.
  - destruct s as [r w m ts x]; simpl in *. subst.
    unfold Perf.step, step_main; simpl. now rewrite decide_True.
Qed.

(** X12: at every point [evidenceIsMobile] is the number of tasks whose
    [IsMobile] value was exactly the string [True] (as a [uint64]); as long
    as the number of tasks fits a [uint64], it is at most
    [evidenceProcessed], which is at most [evidenceCount]. *)
Theorem is_mobile_le_processed (s : state) :
  Reachable s ->
  evidenceIsMobile (rep s) = uint64 (Z.of_nat (sum_list_with mobile (tasks s))) /\
  (Z.of_nat (length (tasks s)) < 2 ^ 64 ->
   0 <= evidenceIsMobile (rep s) <= evidenceProcessed (rep s) /\
   evidenceProcessed (rep s) <= evidenceCount (rep s)).
Proof.
  intros Hr.
  destruct (perf_counting s Hr) as (_ & Hc & Hp & Hm & _ & _).
  split; [assumption|]. intros Hsmall.
  assert (H1 : (sum_list_with mobile (tasks s) <= sum_list_with started (tasks s))%nat).
  { apply sum_with_le. intros [e pc]; simpl.
    destruct pc; simpl; try lia; destruct (is_True res); lia. }
  assert (H2 : (sum_list_with started (tasks s) <= length (tasks s))%nat).
  { apply sum_with_le_length. intros [e pc]; simpl. destruct pc; simpl; lia. }
  rewrite Hc, Hp, Hm. unfold uint64. rewrite !Z.mod_small by lia. lia.
Qed.

(** X13: [performDetections] converts [options.Iterations] to [int]. If
    the converted value is not positive (zero iterations, or a [uint64] of
    2^63 or more) no task is ever started and all counters stay 0. *)
Theorem no_pass_without_iterations (s : state) :
  Iterations = 0 \/ 2 ^ 63 <= Iterations < 2 ^ 64 -> Reachable s ->
  tasks s = [] /\ evidenceCount (rep s) = 0 /\ evidenceProcessed (rep s) = 0 /\
  evidenceIsMobile (rep s) = 0.
Proof.
  intros HI Hr.
  assert (HN : int64 Iterations <= 0).
  { destruct HI as [->|HI]; [discriminate|]. unfold int64.
    replace (Iterations + 2 ^ 63) with (Iterations - 2 ^ 63 + 1 * 2 ^ 64) by lia.
    rewrite Z_mod_plus_full, Z.mod_small by lia. lia. }
  destruct (perf_counting s Hr) as (_ & Hc & Hp & Hm & Hd & _).
  assert (Hlen : length (tasks s) = 0%nat).
  { destruct (main s); simpl in Hd.
    - destruct Hd as [Hi ->]. replace (Z.to_nat i) with 0%nat by lia. reflexivity.
    - lia.
    - rewrite Hd. unfold rounds. replace (Z.to_nat (int64 Iterations)) with 0%nat by lia.
      reflexivity.
    - rewrite Hd. unfold rounds. replace (Z.to_nat (int64 Iterations)) with 0%nat by lia.
      reflexivity.
    - rewrite Hd. unfold rounds. replace (Z.to_nat (int64 Iterations)) with 0%nat by lia.
      reflexivity. }
  apply length_zero_iff_nil in Hlen. rewrite Hlen in *. simpl in *.
  repeat split; assumption.
Qed.

End Run.

Lemma before_check_reachable : Reachable two_records 2 before_check.
Proof. exists (removelast sched). vm_compute. reflexivity. Qed.

Lemma counters_agree_after_wait_witness :
  evidenceCount (rep before_check) = evidenceProcessed (rep before_check) /\
  evidenceCount (rep before_check)
  = uint64 (Z.of_nat (rounds 2 * length two_records)) /\
  step two_records 2 (LMain 0) before_check = Some (with_main RDone before_check).
Proof.
  apply (counters_agree_after_wait two_records 2 0 before_check).
  - apply before_check_reachable.
  - reflexivity.
  - reflexivity.
Defined.

Lemma is_mobile_le_processed_witness :
  evidenceIsMobile (rep final)
  = uint64 (Z.of_nat (sum_list_with mobile (tasks final))) /\
  (Z.of_nat (length (tasks final)) < 2 ^ 64 ->
   0 <= evidenceIsMobile (rep final) <= evidenceProcessed (rep final) /\
   evidenceProcessed (rep final) <= evidenceCount (rep final)).
Proof.
  apply (is_mobile_le_processed two_records 2 final).
  exists sched. vm_compute. reflexivity.
Defined.

Lemma no_pass_without_iterations_witness :
  main final_huge = RDone /\
  tasks final_huge = [] /\ evidenceCount (rep final_huge) = 0 /\
  evidenceProcessed (rep final_huge) = 0 /\ evidenceIsMobile (rep final_huge) = 0.
Proof.
  split; [reflexivity|].
  apply (no_pass_without_iterations two_records (2 ^ 63) final_huge).
  - right. split; [discriminate|reflexivity].
  - exists [LMain 0; LMain 3; LMain 0]. vm_compute. reflexivity.
Defined.

End PerfFacts.

(** * Properties of [processEvidence] *)

Module OfflineFacts.
Import Offline.

Example sample_run :
  processEvidence lower (Ok sample)
  = Ok (<["device.deviceid" := "12280-17779-17470-18092"]>
          (<["device.ismobile" := "True"]> ∅)).
Proof. vm_compute. reflexivity. Qed.

Section ProcessEvidence.

Variable ToLower : string -> string.

Lemma collect_passable (results : Results) (rest : list string) :
  forall i res,
    (exists res', collect ToLower results i rest res = Ok res') <->
    (forall j property, rest !! j = Some property ->
       passable results (i + j) property).
Proof.
  induction rest as [|p rest IH]; intros i res; simpl.
  - split; [intros _ j q Hj; discriminate | eauto].
  - split.
    + intros [res' Hc] j q Hj.
      destruct (HasValuesByIndex results i) as [[|]|] eqn:Hh; try discriminate.
      * destruct (ValuesString results p ",") as [v|] eqn:Hv; try discriminate.
        destruct j as [|j]; simpl in Hj.
        -- injection Hj as <-. rewrite Nat.add_0_r. right. eauto.
        -- replace (i + S j)%nat with (S i + j)%nat by lia.
           eapply IH; eauto.
      * destruct j as [|j]; simpl in Hj.
        -- injection Hj as <-. rewrite Nat.add_0_r. left. exact Hh.
        -- replace (i + S j)%nat with (S i + j)%nat by lia.
           eapply IH; eauto.
    + intros Hall.
      assert (Hrest : forall j q, rest !! j = Some q ->
                passable results (S i + j) q).
      { intros j q Hj. replace (S i + j)%nat with (i + S j)%nat by lia.
        apply Hall. exact Hj. }
      destruct (Hall 0%nat p eq_refl) as [Hh|[Hh [v Hv]]];
        rewrite Nat.add_0_r in Hh; rewrite Hh.
      * apply IH. exact Hrest.
      * rewrite Hv. apply IH. exact Hrest.
Qed.

Lemma collect_lookup (results : Results) (rest : list string) :
  forall i res res' key v,
    collect ToLower results i rest res = Ok res' ->
    res' !! key = Some v ->
    res !! key = Some v \/
    exists j property,
      rest !! j = Some property /\
      HasValuesByIndex results (i + j) = Ok true /\
      ValuesString results property "," = Ok v /\
      key = device_key ToLower property.
Proof.
  induction rest as [|p rest IH]; intros i res res' key v Hc Hl; simpl in Hc.
  - injection Hc as <-. left. exact Hl.
  - destruct (HasValuesByIndex results i) as [[|]|] eqn:Hh; try discriminate.
    + destruct (ValuesString results p ",") as [w|] eqn:Hv; try discriminate.
      destruct (IH _ _ _ _ _ Hc Hl) as [Hin|(j & q & Hj & Hhj & Hvj & Hk)].
      * destruct (decide (device_key ToLower p = key)) as [<-|Hne].
        -- rewrite lookup_insert_eq in Hin. injection Hin as ->.
           right. exists 0%nat, p. rewrite Nat.add_0_r. auto.
        -- rewrite lookup_insert_ne in Hin by exact Hne. left. exact Hin.
      * right. exists (S j), q.
        replace (i + S j)%nat with (S i + j)%nat by lia. auto.
    + destruct (IH _ _ _ _ _ Hc Hl) as [Hin|(j & q & Hj & Hhj & Hvj & Hk)].
      * left. exact Hin.
      * right. exists (S j), q.
        replace (i + S j)%nat with (S i + j)%nat by lia. auto.
Qed.

Lemma collect_preserve (results : Results) (rest : list string) :
  forall i res res' key,
    collect ToLower results i rest res = Ok res' ->
    (forall j property, rest !! j = Some property ->
       HasValuesByIndex results (i + j) = Ok true ->
       device_key ToLower property <> key) ->
    res' !! key = res !! key.
Proof.
  induction rest as [|p rest IH]; intros i res res' key Hc Hne; simpl in Hc.
  - injection Hc as <-. reflexivity.
  - assert (Hrest : forall j q, rest !! j = Some q ->
              HasValuesByIndex results (S i + j) = Ok true ->
              device_key ToLower q <> key).
    { intros j q Hj. replace (S i + j)%nat with (i + S j)%nat by lia.
      apply Hne. exact Hj. }
    destruct (HasValuesByIndex results i) as [[|]|] eqn:Hh; try discriminate.
    + destruct (ValuesString results p ",") as [w|] eqn:Hv; try discriminate.
      rewrite (IH _ _ _ _ Hc Hrest).
      apply lookup_insert_ne. apply (Hne 0%nat p eq_refl).
      rewrite Nat.add_0_r. exact Hh.
    + apply (IH _ _ _ _ Hc Hrest).
Qed.

Lemma collect_last (results : Results) (rest : list string) :
  forall i res res' j property v,
    collect ToLower results i rest res = Ok res' ->
    rest !! j = Some property ->
    HasValuesByIndex results (i + j) = Ok true ->
    ValuesString results property "," = Ok v ->
    (forall j' q, (j < j')%nat -> rest !! j' = Some q ->
       HasValuesByIndex results (i + j') = Ok true ->
       device_key ToLower q <> device_key ToLower property) ->
    res' !! device_key ToLower property = Some v.
Proof.
  induction rest as [|p rest IH]; intros i res res' j q v Hc Hj Hh Hv Hlater;
    [discriminate|].
  simpl in Hc. destruct j as [|j]; simpl in Hj.
  - injection Hj as ->. rewrite Nat.add_0_r in Hh. rewrite Hh, Hv in Hc.
    rewrite (collect_preserve _ _ _ _ _ _ Hc).
    + apply lookup_insert_eq.
    + intros j' q' Hj' Hh'. apply (Hlater (S j') q'); [lia|exact Hj'|].
      replace (i + S j')%nat with (S i + j')%nat by lia. exact Hh'.
  - assert (Hrest : forall j' q', (j < j')%nat -> rest !! j' = Some q' ->
              HasValuesByIndex results (S i + j') = Ok true ->
              device_key ToLower q' <> device_key ToLower q).
    { intros j' q' Hlt Hj'. replace (S i + j')%nat with (i + S j')%nat by lia.
      apply Hlater; [lia|exact Hj']. }
    replace (i + S j)%nat with (S i + j)%nat in Hh by lia.
    destruct (HasValuesByIndex results i) as [[|]|] eqn:Hhi; try discriminate.
    + destruct (ValuesString results p ",") as [w|] eqn:Hw; try discriminate.
      eapply IH; eauto.
    + eapply IH; eauto.
Qed.

(** X14: [processEvidence] returns a map exactly when the detection
    succeeded, every available property either has no values or has values
    that format, and the device id is available. A property without values
    never stops it: its [ValuesString] is not asked for. *)
Theorem processEvidence_returns_iff (processed : result Results) :
  (exists res, processEvidence ToLower processed = Ok res) <->
  (exists results,
     processed = Ok results /\
     (forall i property, AvailableProperties results !! i = Some property ->
        passable results i property) /\
     exists id, DeviceId results = Ok id).
Proof.
  unfold processEvidence. split.
  - intros [res Hres]. destruct processed as [results|]; [|discriminate].
    exists results. split; [reflexivity|].
    destruct (collect ToLower results 0 (AvailableProperties results) ∅)
      as [res0|] eqn:Hc; [|discriminate].
    split.
    + intros i p Hi.
      apply (proj1 (collect_passable results _ 0%nat ∅) (ex_intro _ _ Hc) i p Hi).
    + destruct (DeviceId results) as [id|]; [eauto|discriminate].
  - intros (results & -> & Hall & id & Hid).
    destruct (proj2 (collect_passable results _ 0%nat ∅) Hall) as [res0 Hc].
    rewrite Hc, Hid. eauto.
Qed.

(** X15: in the map [processEvidence] returns, ["device.deviceid"] holds
    the device id, also when an available property has that key; every other
    entry is the formatted value of an available property that has values,
    under ["device."] followed by the lower-cased property name. *)
Theorem processEvidence_entries (results : Results) (res : gmap string string) :
  processEvidence ToLower (Ok results) = Ok res ->
  (exists id, DeviceId results = Ok id /\ res !! deviceid_key = Some id) /\
  forall key v, key <> deviceid_key -> res !! key = Some v ->
    exists i property,
      valued results i property v /\ key = device_key ToLower property.
Proof.
  unfold processEvidence. intros Hres.
  destruct (collect ToLower results 0 (AvailableProperties results) ∅)
    as [res0|] eqn:Hc; [|discriminate].
  destruct (DeviceId results) as [id|]; [|discriminate].
  injection Hres as <-. split.
  - exists id. rewrite lookup_insert_eq. auto.
  - intros key v Hne Hl. rewrite lookup_insert_ne in Hl by congruence.
    destruct (collect_lookup _ _ _ _ _ _ _ Hc Hl)
      as [Hin|(j & p & Hj & Hh & Hv & Hk)].
    + rewrite lookup_empty in Hin. discriminate.
    + exists j, p. unfold valued. auto.
Qed.

(** X16: a property with values is in the map [processEvidence] returns,
    with its formatted value, unless a later property with values or the
    device id has the same key: the last write to a key is the one kept. *)
Theorem processEvidence_last_write (results : Results)
    (res : gmap string string) (i : nat) (property value : string) :
  processEvidence ToLower (Ok results) = Ok res ->
  valued results i property value ->
  device_key ToLower property <> deviceid_key ->
  (forall j q, (i < j)%nat -> AvailableProperties results !! j = Some q ->
     HasValuesByIndex results j = Ok true ->
     device_key ToLower q <> device_key ToLower property) ->
  res !! device_key ToLower property = Some value.
Proof.
  unfold processEvidence. intros Hres (Hi & Hh & Hv) Hne Hlater.
  destruct (collect ToLower results 0 (AvailableProperties results) ∅)
    as [res0|] eqn:Hc; [|discriminate].
  destruct (DeviceId results) as [id|]; [|discriminate].
  injection Hres as <-. rewrite lookup_insert_ne by congruence.
  eapply (collect_last results _ 0%nat); simpl; eauto.
Qed.

End ProcessEvidence.

Lemma processEvidence_returns_iff_witness :
  exists res, processEvidence lower (Ok sample) = Ok res.
Proof.
  apply (proj2 (processEvidence_returns_iff lower (Ok sample))).
  exists sample. split; [reflexivity|]. split.
  - intros i p Hi. destruct i as [|[|[|i]]]; simpl in Hi; try discriminate;
      injection Hi as <-.
    + right. split; [reflexivity|]. exists "True". reflexivity.
    + left. reflexivity.
    + right. split; [reflexivity|]. exists "from-property". reflexivity.
  - exists "12280-17779-17470-18092". reflexivity.
Defined.

Lemma processEvidence_entries_witness :
  (exists id, DeviceId sample = Ok id /\ sample_output !! deviceid_key = Some id) /\
  forall key v, key <> deviceid_key -> sample_output !! key = Some v ->
    exists i property,
      valued sample i property v /\ key = device_key lower property.
Proof.
  apply (processEvidence_entries lower sample sample_output).
  vm_compute. reflexivity.
Defined.

Lemma processEvidence_last_write_witness :
  sample_output !! device_key lower "IsMobile" = Some "True".
Proof.
  apply (processEvidence_last_write lower sample sample_output 0 "IsMobile" "True").
  - vm_compute. reflexivity.
  - repeat split.
  - discriminate.
  - intros j q Hlt Hj Hh.
    destruct j as [|[|[|j]]]; try lia; simpl in Hj; try discriminate.
    injection Hj as <-. discriminate.
Defined.

End OfflineFacts.

(** * Properties of [ParseOptions] *)

Module FlagsFacts.
Import Flags.

Section Parse.

Variable ParseUint : string -> option Z.
Variable ParseBool : string -> option bool.

Example defaults :
  ParseOptions ParseUint ParseBool []
  = Some (MkOptions "../51Degrees-LiteV4.1.hash" "../51Degrees-LiteV4.1.hash"
            EmptyString 4 false).
Proof. reflexivity. Qed.

Lemma formal_registered :
  formal registered
  = [("data-file", stringValue pDataFilePath); ("d", stringValue pDataFilePath);
     ("user-agent-file", stringValue pEvidenceFilePath);
     ("u", stringValue pEvidenceFilePath);
     ("log-output", stringValue pLogOutputPath); ("l", stringValue pLogOutputPath);
     ("iterations", uint64Value pIterations); ("i", uint64Value pIterations);
     ("help", boolValue pShowHelp); ("h", boolValue pShowHelp)].
Proof. reflexivity. Qed.

Lemma load_store (p q : string_ptr) (v : string) (o : Options) :
  load_string p (store_string q v o) = if decide (p = q) then v else load_string p o.
Proof. destruct p, q, o; reflexivity. Qed.

Lemma writes_lookup (p : string_ptr) (name : string) :
  writes p name = true <->
  lookup_flag name (formal registered) = Some (stringValue p).
Proof.
  unfold writes. destruct (lookup_flag name (formal registered)) as [[q| |]|].
  - destruct p, q; split; congruence.
  - split; discriminate.
  - split; discriminate.
  - split; discriminate.
Qed.

Lemma writes_evidence (name : string) :
  writes pEvidenceFilePath name = true ->
  name = "user-agent-file" \/ name = "u".
Proof.
  intros H. apply writes_lookup in H. rewrite formal_registered in H.
  unfold lookup_flag in H. cbn [List.find fst snd] in H.
  repeat match type of H with
  | context [String.eqb ?a name] =>
      let E := fresh "E" in
      destruct (String.eqb a name) eqn:E;
      [apply String.eqb_eq in E|];
      cbn [List.find fst snd fmap option_fmap option_map] in H
  end; try discriminate; auto.
Qed.

Lemma Set_load (p : string_ptr) (v : Value) (value : string) (o o' : Options) :
  Set_ ParseUint ParseBool v value o = Some o' ->
  v <> stringValue p ->
  load_string p o' = load_string p o.
Proof.
  intros HS Hv. destruct v as [q|q|q]; simpl in HS.
  - injection HS as <-. rewrite load_store.
    destruct (decide (p = q)) as [->|]; [contradiction|reflexivity].
  - destruct (ParseUint value); [|discriminate]. injection HS as <-.
    destruct p, q, o; reflexivity.
  - destruct (ParseBool value); [|discriminate]. injection HS as <-.
    destruct p, q, o; reflexivity.
Qed.

Lemma Parse_untouched (p : string_ptr) (args : list (string * string)) :
  forall o o',
    Parse ParseUint ParseBool args (MkFlagSet o (formal registered)) = Some o' ->
    (forall name value, (name, value) ∈ args -> writes p name = false) ->
    load_string p o' = load_string p o.
Proof.
  induction args as [|[name value] args IH]; intros o o' HP Hno;
    cbn [Parse options formal] in HP.
  - injection HP as <-. reflexivity.
  - destruct (lookup_flag name (formal registered)) as [v|] eqn:Hl; [|discriminate].
    destruct (Set_ ParseUint ParseBool v value o) as [o1|] eqn:HS; [|discriminate].
    rewrite (IH _ _ HP).
    + apply (Set_load _ _ _ _ _ HS). intros ->.
      apply writes_lookup in Hl.
      rewrite (Hno name value) in Hl; [discriminate|]. apply list_elem_of_here.
    + intros n w Hin. apply (Hno n w). apply list_elem_of_further. exact Hin.
Qed.

Lemma Parse_app (l1 l2 : list (string * string)) :
  forall f,
    Parse ParseUint ParseBool (l1 ++ l2) f
    = match Parse ParseUint ParseBool l1 f with
      | Some o => Parse ParseUint ParseBool l2 (MkFlagSet o (formal f))
      | None => None
      end.
Proof.
  induction l1 as [|[name value] l1 IH]; intros [o F]; simpl; [reflexivity|].
  destruct (lookup_flag name F); [|reflexivity].
  destruct (Set_ ParseUint ParseBool _ value o); [|reflexivity].
  apply IH.
Qed.

(** X17: when the command line gives neither [-user-agent-file] nor [-u],
    [ParseOptions] returns the default data file path
    ["../51Degrees-LiteV4.1.hash"] as [EvidenceFilePath], whatever the other
    flags are, and not the User-Agents file: registering the alias [-u] with
    the default [options.DataFilePath] overwrites the default of the long
    name. *)
Theorem evidence_default_is_data_file (args : list (string * string))
    (o : Options) :
  ParseOptions ParseUint ParseBool args = Some o ->
  (forall name value, (name, value) ∈ args ->
     name <> "user-agent-file" /\ name <> "u") ->
  EvidenceFilePath o = "../" +:+ LiteDataFile /\
  EvidenceFilePath o <> "../" +:+ UaFile.
Proof.
  unfold ParseOptions. intros HP Hno.
  assert (HE : EvidenceFilePath o = "../" +:+ LiteDataFile).
  { change (EvidenceFilePath o) with (load_string pEvidenceFilePath o).
    rewrite (Parse_untouched pEvidenceFilePath args (options registered) o).
    - reflexivity.
    - exact HP.
    - intros name value Hin.
      destruct (writes pEvidenceFilePath name) eqn:Hw; [|reflexivity].
      destruct (Hno name value Hin) as [H1 H2].
      destruct (writes_evidence name Hw); contradiction. }
  split; [exact HE|]. rewrite HE. discriminate.
Qed.

(** X18: for each of the three string options, the value [ParseOptions]
    returns is the one given by the last flag of the command line that names
    it, by its long name or by its alias. *)
Theorem last_flag_wins (p : string_ptr) (before after : list (string * string))
    (name value : string) (o : Options) :
  ParseOptions ParseUint ParseBool (before ++ (name, value) :: after) = Some o ->
  writes p name = true ->
  (forall n v, (n, v) ∈ after -> writes p n = false) ->
  load_string p o = value.
Proof.
  unfold ParseOptions. intros HP Hw Hno. rewrite Parse_app in HP.
  destruct (Parse ParseUint ParseBool before registered) as [o1|]; [|discriminate].
  cbn [Parse options formal] in HP. apply writes_lookup in Hw.
  rewrite Hw in HP. cbn [Set_] in HP.
  rewrite (Parse_untouched p after _ o HP Hno).
  rewrite load_store. destruct (decide (p = p)); [reflexivity|contradiction].
Qed.

End Parse.

Lemma evidence_default_is_data_file_witness :
  EvidenceFilePath
    (MkOptions "data.hash" "../51Degrees-LiteV4.1.hash" EmptyString 10 false)
  = "../" +:+ LiteDataFile /\
  EvidenceFilePath
    (MkOptions "data.hash" "../51Degrees-LiteV4.1.hash" EmptyString 10 false)
  <> "../" +:+ UaFile.
Proof.
  apply (evidence_default_is_data_file parse_uint parse_bool
           [("d", "data.hash"); ("iterations", "10")]).
  - reflexivity.
  - intros name value Hin.
    apply elem_of_cons in Hin as [Hin|Hin];
      [|apply elem_of_cons in Hin as [Hin|Hin]].
    + injection Hin as -> ->. split; discriminate.
    + injection Hin as -> ->. split; discriminate.
    + apply elem_of_nil in Hin. contradiction.
Defined.

Lemma last_flag_wins_witness :
  load_string pDataFilePath
    (MkOptions "b.hash" "../51Degrees-LiteV4.1.hash" EmptyString 4 true)
  = "b.hash".
Proof.
  apply (last_flag_wins parse_uint parse_bool pDataFilePath
           [("data-file", "a.hash")] [("h", "true")] "d" "b.hash").
  - reflexivity.
  - reflexivity.
  - intros n v Hin. apply elem_of_cons in Hin as [Hin|Hin].
    + injection Hin as -> ->. reflexivity.
    + apply elem_of_nil in Hin. contradiction.
Defined.

End FlagsFacts.

(** * Properties of [matchMetrics] and [verifyOutputFormat] *)

Module MetricsFacts.
Import Metrics.

Example sample_accepted :
  exists report,
    matchMetrics (sample true) = Ok report /\
    snd (verifyOutputFormat report)
    = Ok ("Match metrics in format:" +:+ nl +:+ readableFormat).
Proof. eexists. split; [reflexivity|]. vm_compute. reflexivity. Qed.

Lemma append_cons (x : ascii) (a b : string) :
  String x a +:+ b = String x (a +:+ b).
Proof. reflexivity. Qed.

Lemma append_nil_l (a : string) : EmptyString +:+ a = a.
Proof. reflexivity. Qed.

Lemma append_assoc (a b c : string) : (a +:+ b) +:+ c = a +:+ (b +:+ c).
Proof.
  induction a as [|x a IH]; [reflexivity|].
  rewrite !append_cons, IH. reflexivity.
Qed.

Lemma append_nil_r (a : string) : a +:+ EmptyString = a.
Proof.
  induction a as [|x a IH]; [reflexivity|]. rewrite append_cons, IH. reflexivity.
Qed.

Lemma append_nil_inv (a b : string) :
  a +:+ b = EmptyString -> a = EmptyString /\ b = EmptyString.
Proof. destruct a; [auto|rewrite append_cons; discriminate]. Qed.

(** ** The matcher decides the language *)

Lemma nullable_complete (r : regexp) (s : string) :
  matches r s -> s = EmptyString -> nullable r = true.
Proof.
  induction 1 as [|f c Hf|r1 r2 s1 s2 H1 IH1 H2 IH2|r1 r2 s H IH|r1 r2 s H IH
                  |r|r s1 s2 H1 IH1 H2 IH2]; intros Hs; simpl; auto.
  - discriminate.
  - apply append_nil_inv in Hs as [Hs1 Hs2]. rewrite IH1, IH2; auto.
  - rewrite IH; auto.
  - rewrite IH; auto. apply orb_true_r.
Qed.

Lemma deriv_complete (r : regexp) (s0 : string) :
  matches r s0 -> forall c s, s0 = String c s -> matches (deriv c r) s.
Proof.
  induction 1 as [|f c0 Hf|r1 r2 s1 s2 H1 IH1 H2 IH2|r1 r2 s' H IH|r1 r2 s' H IH
                  |r|r s1 s2 H1 IH1 H2 IH2]; intros c s Hs; simpl.
  - discriminate.
  - injection Hs as -> <-. rewrite Hf. constructor.
  - destruct s1 as [|c1 s1];
      [rewrite append_nil_l in Hs|rewrite append_cons in Hs].
    + rewrite (nullable_complete _ _ H1 eq_refl). apply MAltR. eauto.
    + injection Hs as -> <-.
      assert (Hc : matches (Cat (deriv c r1) r2) (s1 +:+ s2))
        by (constructor; eauto).
      destruct (nullable r1); [apply MAltL|]; exact Hc.
  - apply MAltL. eauto.
  - apply MAltR. eauto.
  - discriminate.
  - destruct s1 as [|c1 s1];
      [rewrite append_nil_l in Hs|rewrite append_cons in Hs].
    + apply (IH2 c s Hs).
    + injection Hs as -> <-. constructor; eauto.
Qed.

Lemma matchb_complete (s : string) :
  forall r, matches r s -> matchb r s = true.
Proof.
  induction s as [|c s IH]; intros r H; simpl.
  - eapply nullable_complete; eauto.
  - apply IH. eapply deriv_complete; eauto.
Qed.

Lemma nullable_sound (r : regexp) :
  nullable r = true -> matches r EmptyString.
Proof.
  induction r as [| |f|r1 IH1 r2 IH2|r1 IH1 r2 IH2|r IH]; simpl; intros H;
    try discriminate.
  - constructor.
  - apply andb_true_iff in H as [H1 H2].
    apply (MCat r1 r2 EmptyString EmptyString); auto.
  - apply orb_true_iff in H as [H|H]; [apply MAltL|apply MAltR]; auto.
  - constructor.
Qed.

Lemma deriv_sound (c : ascii) (r : regexp) :
  forall s, matches (deriv c r) s -> matches r (String c s).
Proof.
  induction r as [| |f|r1 IH1 r2 IH2|r1 IH1 r2 IH2|r IH]; simpl; intros s H.
  - inversion H.
  - inversion H.
  - destruct (f c) eqn:Hf; inversion H; subst. constructor. exact Hf.
  - assert (Hcat : forall s, matches (Cat (deriv c r1) r2) s ->
              matches (Cat r1 r2) (String c s)).
    { intros s' H'. inversion H' as [| |? ? s1 s2 Ha Hb| | | |]; subst.
      apply (MCat r1 r2 (String c s1) s2); auto. }
    destruct (nullable r1) eqn:Hn; [|auto].
    inversion H as [| | |? ? ? Ha|? ? ? Hb| |]; subst; [auto|].
    apply (MCat r1 r2 EmptyString (String c s)); auto.
    apply nullable_sound. exact Hn.
  - inversion H; subst; [apply MAltL|apply MAltR]; auto.
  - inversion H as [| |? ? s1 s2 Ha Hb| | | |]; subst.
    apply (MStarS r (String c s1) s2); auto.
Qed.

Lemma matchb_sound (s : string) :
  forall r, matchb r s = true -> matches r s.
Proof.
  induction s as [|c s IH]; intros r H; simpl in H.
  - apply nullable_sound. exact H.
  - apply deriv_sound. apply IH. exact H.
Qed.

(** ** Building matches *)

Lemma matches_Lit (s : string) : matches (Lit s) s.
Proof.
  induction s as [|c s IH]; simpl; [constructor|].
  apply (MCat _ _ (String c EmptyString) s); [|exact IH].
  constructor. apply Ascii.eqb_refl.
Qed.

Lemma matches_cat (r1 r2 : regexp) (s1 s2 s : string) :
  matches r1 s1 -> matches r2 s2 -> s = s1 +:+ s2 -> matches (Cat r1 r2) s.
Proof. intros H1 H2 ->. constructor; assumption. Qed.

Lemma matches_star_class (f : ascii -> bool) (s : string) :
  (forall c s1 s2, s = s1 +:+ String c s2 -> f c = true) ->
  matches (Star (Class f)) s.
Proof.
  induction s as [|c s IH]; intros Hall; [constructor|].
  apply (MStarS _ (String c EmptyString) s).
  - constructor. apply (Hall c EmptyString s). reflexivity.
  - apply IH. intros c' s1 s2 ->. apply (Hall c' (String c s1) s2). reflexivity.
Qed.

Lemma matches_any (s : string) : matches (Star (Class any)) s.
Proof. apply matches_star_class. reflexivity. Qed.

Lemma matches_all_digit (s : string) :
  all_digit s = true -> matches (Star (Class digit)) s.
Proof.
  induction s as [|c s IH]; simpl; intros H; [constructor|].
  apply andb_true_iff in H as [Hc Hs].
  apply (MStarS _ (String c EmptyString) s); [constructor|]; auto.
Qed.

Lemma matches_number (s : string) :
  number s -> matches (Plus (Class digit)) s.
Proof.
  intros [Hne Hall]. destruct s as [|c s]; [contradiction|].
  simpl in Hall. apply andb_true_iff in Hall as [Hc Hs].
  apply (MCat _ _ (String c EmptyString) s); [constructor; exact Hc|].
  apply matches_all_digit. exact Hs.
Qed.

Lemma string_of_uint_digits (d : Decimal.uint) :
  all_digit (NilEmpty.string_of_uint d) = true.
Proof. induction d; simpl; auto. Qed.

Lemma fmt_d_number (z : Z) : 0 <= z -> number (fmt_d z).
Proof.
  intros Hz. unfold fmt_d, number.
  assert (Hd : forall d, NilZero.string_of_uint d <> EmptyString /\
                         all_digit (NilZero.string_of_uint d) = true).
  { intros d. destruct d; simpl; split; try discriminate; try reflexivity;
      apply string_of_uint_digits. }
  destruct z as [|p|p]; simpl; [split; [discriminate|reflexivity]|apply Hd|lia].
Qed.

(** A line ends at its first new line. *)
Lemma first_line (s : string) :
  exists line rest,
    s +:+ nl = line +:+ nl +:+ rest /\ matches (Star (Class dot)) line.
Proof.
  induction s as [|c s (line & rest & Heq & Hm)].
  - exists EmptyString, EmptyString. split; [reflexivity|constructor].
  - destruct (dot c) eqn:Hc.
    + exists (String c line), rest. split.
      * rewrite !append_cons, Heq. reflexivity.
      * apply (MStarS _ (String c EmptyString) line); [constructor|]; auto.
    + exists EmptyString, (s +:+ nl). split; [|constructor].
      unfold dot in Hc. apply negb_false_iff, Ascii.eqb_eq in Hc. subst c.
      reflexivity.
Qed.

Lemma matches_id (deviceId : string) :
  id_form deviceId ->
  matches
    (Alt (Cat (Plus (Class digit)) (Cat (Lit "-") (Cat (Plus (Class digit))
            (Cat (Lit "-") (Cat (Plus (Class digit)) (Cat (Lit "-")
               (Plus (Class digit))))))))
         (Cat (Plus (Class digit)) (Cat (Lit "-") (Plus (Class digit)))))
    deviceId.
Proof.
  intros [(a & b & c & d & Ha & Hb & Hc & Hd & ->)|(a & b & Ha & Hb & ->)].
  - apply MAltL.
    repeat (first [apply MCat | apply matches_number; assumption
                  | apply matches_Lit]).
  - apply MAltR.
    repeat (first [apply MCat | apply matches_number; assumption
                  | apply matches_Lit]).
Qed.

(** A part of [s] matches [r], and [rest] follows it. *)
Lemma prefix_last (r : regexp) (s1 rest : string) :
  matches r s1 ->
  exists part, matches r part /\ s1 +:+ rest = part +:+ rest.
Proof. eauto. Qed.

Lemma prefix_cat (r1 r2 : regexp) (s1 s rest : string) :
  matches r1 s1 ->
  (exists part, matches r2 part /\ s = part +:+ rest) ->
  exists part, matches (Cat r1 r2) part /\ s1 +:+ s = part +:+ rest.
Proof.
  intros H1 (part & H2 & ->). exists (s1 +:+ part). split.
  - constructor; assumption.
  - rewrite append_assoc. reflexivity.
Qed.

Lemma prefix_lit2 (a b : string) (r : regexp) (s rest : string) :
  (exists part, matches r part /\ s = part +:+ rest) ->
  exists part,
    matches (Cat (Lit (a +:+ b)) r) part /\ a +:+ b +:+ s = part +:+ rest.
Proof.
  intros H. rewrite <- append_assoc. apply prefix_cat; [|exact H].
  apply matches_Lit.
Qed.

Lemma Match_prefix (re : regexp) (s rest : string) :
  (exists part, matches re part /\ s = part +:+ rest) ->
  Match re s = true.
Proof.
  intros (part & H & ->). apply matchb_complete.
  apply (MCat _ _ EmptyString (part +:+ rest)); [constructor|].
  constructor; auto using matches_any.
Qed.

(** X19: when [IsMobile] has the value [True] or [False], the device id is
    two or four numbers joined by dashes, and drift, difference and
    iterations are not negative, [matchMetrics] builds a report that
    [verifyOutputFormat] accepts, whatever the matching method and the matched
    User-Agent are: nothing is logged and the readable format is returned. *)
Theorem well_formed_report_accepted (results : Results)
    (value deviceId matchedUserAgent : string) :
  ValuesString results "IsMobile" "," = Ok value ->
  value = "True" \/ value = "False" ->
  HasValues results "IsMobile" = Ok true ->
  DeviceId results = Ok deviceId -> id_form deviceId ->
  0 <= Drift results -> 0 <= Difference results -> 0 <= Iterations results ->
  UserAgent results 0 = Ok matchedUserAgent ->
  exists matchReport,
    matchMetrics results = Ok matchReport /\
    verifyOutputFormat matchReport
    = ([], Ok ("Match metrics in format:" +:+ nl +:+ readableFormat)).
Proof.
  intros Hv Hvalue Hh Hid Hform Hdrift Hdiff Hiter Hua.
  unfold matchMetrics. rewrite Hv, Hh, Hid, Hua. cbn [negb].
  eexists. split; [reflexivity|].
  unfold verifyOutputFormat.
  destruct (first_line matchedUserAgent) as (line & rest & Heq & Hline).
  set (methodStr := match Method results with
                    | NoMethod => "NONE" | Performance => "PERFORMANCE"
                    | Combined => "COMBINED" | Predictive => "PREDICTIVE"
                    end).
  assert (Hmethod : matches (Alt (Lit "PERFORMANCE") (Alt (Lit "PREDICTIVE")
                      (Alt (Lit "COMBINED") (Lit "NONE")))) methodStr).
  { unfold methodStr. destruct (Method results).
    - apply MAltR, MAltR, MAltR, matches_Lit.
    - apply MAltL, matches_Lit.
    - apply MAltR, MAltR, MAltL, matches_Lit.
    - apply MAltR, MAltL, matches_Lit. }
  assert (Hval : matches (Alt (Lit "True") (Lit "False")) value).
  { destruct Hvalue as [->| ->]; [apply MAltL|apply MAltR]; apply matches_Lit. }
  match goal with
  | |- context [Match expected ?report] =>
      assert (HM : Match expected report = true)
  end.
  { rewrite !append_assoc, Heq. apply (Match_prefix _ _ rest). unfold expected.
    repeat first
      [ apply prefix_lit2
      | apply prefix_cat;
        [first [ exact Hval | exact Hmethod | exact Hline
               | apply matches_id; exact Hform
               | apply matches_number, fmt_d_number; assumption
               | apply matches_Lit ]|]
      | apply prefix_last; apply matches_Lit ]. }
  rewrite HM. reflexivity.
Qed.


Lemma matches_Lit_inv (a s : string) : matches (Lit a) s -> s = a.
Proof.
  revert s. induction a as [|c a IH]; intros s H; simpl in H.
  - inversion H. reflexivity.
  - inversion H as [| |? ? s1 s2 H1 H2| | | |]; subst.
    inversion H1 as [|? c' Hc| | | | |]; subst.
    apply Ascii.eqb_eq in Hc. subst c'.
    rewrite (IH _ H2). reflexivity.
Qed.

(** X21: a report [verifyOutputFormat] accepts has a line
    [\tIsMobile: True] or [\tIsMobile: False] in it. *)
Theorem accepted_report_is_boolean (matchReport out : string) :
  snd (verifyOutputFormat matchReport) = Ok out ->
  exists before value after,
    (value = "True" \/ value = "False") /\
    matchReport
    = before +:+ (tab +:+ "IsMobile: ") +:+ value +:+ nl +:+ after.
Proof.
  unfold verifyOutputFormat.
  destruct (Match expected matchReport) eqn:HM; [|discriminate]. intros _.
  apply matchb_sound in HM.
  inversion HM as [| |? ? before s1 _ H1| | | |]; subst.
  inversion H1 as [| |? ? part after H2 _| | | |]; subst.
  unfold expected in H2.
  inversion H2 as [| |? ? p1 s2 Hp1 H3| | | |]; subst.
  inversion H3 as [| |? ? value s3 Hvalue H4| | | |]; subst.
  inversion H4 as [| |? ? p2 s4 Hp2 _| | | |]; subst.
  apply (matches_Lit_inv (tab +:+ "IsMobile: ")) in Hp1.
  apply (matches_Lit_inv nl) in Hp2. subst p1 p2.
  exists before, value, (s4 +:+ after). split.
  - inversion Hvalue as [| | |? ? ? Ht|? ? ? Hf| |]; subst;
      [left; apply (matches_Lit_inv "True")
      |right; apply (matches_Lit_inv "False")]; assumption.
  - rewrite !append_assoc. reflexivity.
Qed.

Lemma well_formed_report_accepted_witness :
  exists matchReport,
    matchMetrics (sample true) = Ok matchReport /\
    verifyOutputFormat matchReport
    = ([], Ok ("Match metrics in format:" +:+ nl +:+ readableFormat)).
Proof.
  apply (well_formed_report_accepted (sample true) "True"
           "12280-81243-82102-0" mobile_ua); try reflexivity; try discriminate.
  - left. reflexivity.
  - left. exists "12280", "81243", "82102", "0".
    repeat split; discriminate.
Defined.


Lemma accepted_report_is_boolean_witness :
  exists before value after,
    (value = "True" \/ value = "False") /\
    tab +:+ "IsMobile: False" +:+ nl +:+ tab +:+ "Id: 1-2" +:+ nl
      +:+ tab +:+ "Drift: 0" +:+ nl +:+ tab +:+ "Difference: 0" +:+ nl
      +:+ tab +:+ "Iterations: 7" +:+ nl +:+ tab +:+ "Method: NONE" +:+ nl
      +:+ tab +:+ "Sub Strings: " +:+ nl
    = before +:+ (tab +:+ "IsMobile: ") +:+ value +:+ nl +:+ after.
Proof.
  apply (accepted_report_is_boolean _
           ("Match metrics in format:" +:+ nl +:+ readableFormat)).
  vm_compute. reflexivity.
Defined.

End MetricsFacts.
